(** * Resume editor: the document store, the field binder, the list editor
      and the session controller of the React front end.

    The front end keeps one resume document in component state and edits it
    through event handlers.  The handlers are JavaScript: documents, their
    lists and the entries of those lists are heap objects that are passed
    around by reference, so the development models an explicit object heap
    and lets every handler run in a small state-and-exception monad over the
    component state.  *)

From Stdlib Require Import ZArith String Ascii List.
From stdpp Require Import base option list gmap strings pretty.

Local Open Scope string_scope.
Local Open Scope Z_scope.
Local Open Scope list_scope.

(** ** JavaScript values and the object heap *)

(** A location names one heap object.  The heap is a list of objects and a
    location is an index into it: [new] objects are appended, so a location
    that is in use is never handed out again. *)
Abbreviation loc := nat.

(** Numbers stand for integers only: the program never computes with a
    number, it only tests one for truthiness or prints the time stamp. *)
Inductive val : Type :=
  | VUndef
  | VNull
  | VBool (b : bool)
  | VNum (z : Z)
  | VStr (s : string)
  | VRef (l : loc).

Global Instance val_eq_dec : EqDecision val.
Proof. solve_decision. Defined.

(** An object is an array when [elems] is [Some xs]; [props] holds the named
    (non-index) own properties.  A plain object has [elems = None]. *)
Record obj : Type := Obj {
  elems : option (list val);
  props : gmap string val
}.

Definition plainObject (m : gmap string val) : obj := Obj None m.
Definition arrayObject (xs : list val) : obj := Obj (Some xs) ∅.

(** What the program can throw or catch: an [Error] instance with its
    message, or any other thrown value. *)
Inductive thrown : Type :=
  | JsError (message : string)
  | NonError.

(** The value a JSON text denotes, as [JSON.parse] reads it and
    [JSON.stringify] writes it. *)
#[local] Unset Elimination Schemes.
Inductive json : Type :=
  | JNull
  | JBool (b : bool)
  | JNum (z : Z)
  | JStr (s : string)
  | JArr (items : list json)
  | JObj (members : list (string * json)).
#[local] Set Elimination Schemes.

(** ** Component state *)

(** The selected file; its name stands for the blob. *)
Definition File := string.

(** The five [useState] cells of [App], the object heap they point into, and
    the browser console. *)
Record world : Type := World {
  heap : list obj;
  file : option File;
  parsedData : val;
  pdfUrl : val;
  loading : bool;
  error : option string;
  console : list (string * thrown)
}.

Definition initial : world :=
  World [] None VNull VNull false None [].

(** ** The handler monad: state passing with JavaScript exceptions.
    A [throw] keeps the state changes made before it. *)
Inductive completion (A : Type) : Type :=
  | Normal (a : A)
  | Throw (e : thrown).
Arguments Normal {A} a.
Arguments Throw {A} e.

Definition M (A : Type) : Type := world → completion A * world.

Global Instance M_ret : MRet M := λ A a w, (Normal a, w).
Global Instance M_bind : MBind M := λ A B f c w,
  match c w with
  | (Normal a, w') => f a w'
  | (Throw e, w') => (Throw e, w')
  end.

Definition throw {A} (e : thrown) : M A := λ w, (Throw e, w).

(** [try { body } catch (err) { handler err }] *)
Definition try_catch {A} (body : M A) (handler : thrown → M A) : M A := λ w,
  match body w with
  | (Normal a, w') => (Normal a, w')
  | (Throw e, w') => handler e w'
  end.

(** [try { body } finally { fin }]: [fin] runs on both exits; a throw of
    [fin] itself replaces the completion of [body]. *)
Definition try_finally {A} (body : M A) (fin : M unit) : M A := λ w,
  match body w with
  | (r, w') =>
      match fin w' with
      | (Normal _, w'') => (r, w'')
      | (Throw e, w'') => (Throw e, w'')
      end
  end.

Definition getHeap : M (list obj) := λ w, (Normal (heap w), w).
Definition getFile : M (option File) := λ w, (Normal (file w), w).
Definition getParsedData : M val := λ w, (Normal (parsedData w), w).

Definition putHeap (h : list obj) : M unit := λ w,
  (Normal tt, World h (file w) (parsedData w) (pdfUrl w) (loading w) (error w) (console w)).
Definition setFile (f : option File) : M unit := λ w,
  (Normal tt, World (heap w) f (parsedData w) (pdfUrl w) (loading w) (error w) (console w)).
Definition setParsedData (d : val) : M unit := λ w,
  (Normal tt, World (heap w) (file w) d (pdfUrl w) (loading w) (error w) (console w)).
Definition setPdfUrl (u : val) : M unit := λ w,
  (Normal tt, World (heap w) (file w) (parsedData w) u (loading w) (error w) (console w)).
Definition setLoading (b : bool) : M unit := λ w,
  (Normal tt, World (heap w) (file w) (parsedData w) (pdfUrl w) b (error w) (console w)).
Definition setError (e : option string) : M unit := λ w,
  (Normal tt, World (heap w) (file w) (parsedData w) (pdfUrl w) (loading w) e (console w)).

(** [console.error(label, err)] *)
Definition console_error (label : string) (err : thrown) : M unit := λ w,
  (Normal tt, World (heap w) (file w) (parsedData w) (pdfUrl w) (loading w) (error w)
                    (console w ++ [(label, err)])).

(** ** Language primitives the handlers use *)

(** Allocation of a fresh object. *)
Definition alloc (o : obj) : M loc := λ w,
  (Normal (length (heap w)),
   World (heap w ++ [o]) (file w) (parsedData w) (pdfUrl w) (loading w) (error w) (console w)).

(** [{ ... }] and [[ ... ]] literals. *)
Definition objectLit (m : gmap string val) : M val :=
  l ← alloc (plainObject m); mret (VRef l).
Definition arrayLit (xs : list val) : M val :=
  l ← alloc (arrayObject xs); mret (VRef l).

(** [ToBoolean]. *)
Definition truthy (v : val) : bool :=
  match v with
  | VUndef | VNull => false
  | VBool b => b
  | VNum z => negb (z =? 0)
  | VStr s => negb (String.eqb s "")
  | VRef _ => true
  end.

(** The characters of a string, each as a one-character string. *)
Fixpoint chars (s : string) : list string :=
  match s with
  | EmptyString => []
  | String c s' => String c EmptyString :: chars s'
  end.

(** Index-keyed properties of a sequence: ["0"], ["1"], ... *)
Definition indexed (xs : list val) : gmap string val :=
  list_to_map (imap (λ i x, (pretty i, x)) xs).

(** The own enumerable properties that an object spread [{...v}] copies. *)
Definition ownProps (h : list obj) (v : val) : gmap string val :=
  match v with
  | VRef l =>
      match h !! l with
      | Some o =>
          match elems o with
          | None => props o
          | Some xs => indexed xs ∪ props o
          end
      | None => ∅
      end
  | VStr s => indexed (VStr <$> chars s)
  | _ => ∅
  end.

(** The messages of the engine's own [TypeError]s.  Their wording differs
    between engines; nothing below depends on it. *)
Definition msg_read_nullish (k : string) : string :=
  "Cannot read properties of null or undefined (reading '" +:+ k +:+ "')".
Definition msg_set_nullish (k : string) : string :=
  "Cannot set properties of null or undefined (setting '" +:+ k +:+ "')".
Definition msg_create_property (k : string) : string :=
  "Cannot create property '" +:+ k +:+ "' on a primitive value".
Definition msg_not_iterable : string := "value is not iterable".
Definition msg_circular : string := "Converting circular structure to JSON".

(** [v.k] for a property name [k] that is neither an array index nor
    [length] (the program reads no other kind): a [TypeError] on [null] and
    [undefined], the own property of an object, [undefined] elsewhere. *)
Definition getProp (v : val) (k : string) : M val := λ w,
  match v with
  | VUndef | VNull => (Throw (JsError (msg_read_nullish k)), w)
  | VRef l =>
      match heap w !! l with
      | Some o => (Normal (default VUndef (props o !! k)), w)
      | None => (Normal VUndef, w)
      end
  | _ => (Normal VUndef, w)
  end.

(** [v?.k] *)
Definition optGetProp (v : val) (k : string) : M val :=
  match v with
  | VUndef | VNull => mret VUndef
  | _ => getProp v k
  end.

(** [a[i]] on an array, for an index [i]. *)
Definition getIndex (a : val) (i : nat) : M val := λ w,
  match a with
  | VRef l =>
      match heap w !! l with
      | Some (Obj (Some xs) _) => (Normal (default VUndef (xs !! i)), w)
      | _ => (Normal VUndef, w)
      end
  | _ => (Normal VUndef, w)
  end.

(** [target.k = v] in strict-mode code, for a property name [k] as in
    [getProp]: the object is updated in place. *)
Definition setProp (target : val) (k : string) (v : val) : M unit := λ w,
  match target with
  | VUndef | VNull => (Throw (JsError (msg_set_nullish k)), w)
  | VRef l =>
      match heap w !! l with
      | Some o => putHeap (<[l := Obj (elems o) (<[k := v]> (props o))]> (heap w)) w
      | None => (Normal tt, w)
      end
  | _ => (Throw (JsError (msg_create_property k)), w)
  end.

(** The elements that an array spread [[...v]] iterates over. *)
Definition iterate (v : val) : M (list val) := λ w,
  match v with
  | VRef l =>
      match heap w !! l with
      | Some (Obj (Some xs) _) => (Normal xs, w)
      | _ => (Throw (JsError msg_not_iterable), w)
      end
  | VStr s => (Normal (VStr <$> chars s), w)
  | _ => (Throw (JsError msg_not_iterable), w)
  end.

(** In-place change of the elements of an array object. *)
Definition modifyElems (a : val) (f : list val → list val) : M unit := λ w,
  match a with
  | VRef l =>
      match heap w !! l with
      | Some (Obj (Some xs) m) => putHeap (<[l := Obj (Some (f xs)) m]> (heap w)) w
      | _ => (Normal tt, w)
      end
  | _ => (Normal tt, w)
  end.

(** [a.push(x)] *)
Definition push (a : val) (x : val) : M unit :=
  modifyElems a (λ xs, xs ++ [x]).

(** The elements left by [xs.splice(start, deleteCount)]: a negative [start]
    counts from the end, and both bounds are clamped to the array. *)
Definition spliced (start deleteCount : Z) (xs : list val) : list val :=
  let len := Z.of_nat (length xs) in
  let from := if start <? 0 then Z.max (len + start) 0 else Z.min start len in
  let count := Z.min (Z.max deleteCount 0) (len - from) in
  take (Z.to_nat from) xs ++ drop (Z.to_nat (from + count)) xs.

(** [a.splice(start, deleteCount)]; the array of removed elements that the
    call returns is dropped by every caller. *)
Definition splice (a : val) (start deleteCount : Z) : M unit :=
  modifyElems a (spliced start deleteCount).

(** ** Text primitives *)

(** [s.split(sep)] for a one-character separator: every occurrence of the
    separator cuts, nothing is trimmed, and a text without separator (the
    empty text too) gives a single piece. *)
Fixpoint split (sep : ascii) (s : string) : list string :=
  match s with
  | EmptyString => [EmptyString]
  | String c s' =>
      if Ascii.eqb c sep then EmptyString :: split sep s'
      else match split sep s' with
           | piece :: rest => String c piece :: rest
           | [] => [String c EmptyString]
           end
  end.

(** [xs.join(sep)] on texts. *)
Fixpoint join (sep : string) (xs : list string) : string :=
  match xs with
  | [] => EmptyString
  | [x] => x
  | x :: rest => x +:+ sep +:+ join sep rest
  end.

Definition comma : ascii := ","%char.
Definition newline : ascii := Ascii.ascii_of_nat 10.

(** ** JSON in and out of the heap *)

(** [JSON.parse]: every array and object of the text becomes a fresh heap
    object; of two members with one key the later wins. *)
Fixpoint load (j : json) (h : list obj) : val * list obj :=
  match j with
  | JNull => (VNull, h)
  | JBool b => (VBool b, h)
  | JNum z => (VNum z, h)
  | JStr s => (VStr s, h)
  | JArr items =>
      let '(vs, h1) :=
        (fix go (js : list json) (h : list obj) : list val * list obj :=
           match js with
           | [] => ([], h)
           | j :: js' =>
               let '(v, h1) := load j h in
               let '(vs, h2) := go js' h1 in
               (v :: vs, h2)
           end) items h in
      (VRef (length h1), h1 ++ [arrayObject vs])
  | JObj members =>
      let '(m, h1) :=
        (fix go (kjs : list (string * json)) (m : gmap string val) (h : list obj)
           : gmap string val * list obj :=
           match kjs with
           | [] => (m, h)
           | (k, j) :: kjs' =>
               let '(v, h1) := load j h in
               go kjs' (<[k := v]> m) h1
           end) members ∅ h in
      (VRef (length h1), h1 ++ [plainObject m])
  end.

Definition loadJson (j : json) : M val := λ w,
  let '(v, h) := load j (heap w) in
  (Normal v, World h (file w) (parsedData w) (pdfUrl w) (loading w) (error w) (console w)).

(** [JSON.stringify] as the JSON value it writes, to depth [fuel]: a member
    whose value is [undefined] is left out, an [undefined] element is written
    as [null], and the named properties of an array are not written.  [None]
    when the depth is exhausted. *)
Fixpoint encode (fuel : nat) (h : list obj) (v : val) : option json :=
  match fuel with
  | O => None
  | S k =>
      match v with
      | VUndef | VNull => Some JNull
      | VBool b => Some (JBool b)
      | VNum z => Some (JNum z)
      | VStr s => Some (JStr s)
      | VRef l =>
          match h !! l with
          | None => None
          | Some (Obj (Some xs) _) => JArr <$> mapM (encode k h) xs
          | Some (Obj None m) =>
              JObj <$> mapM (λ kv : string * val, pair kv.1 <$> encode k h kv.2)
                            (filter (λ kv : string * val, kv.2 ≠ VUndef) (map_to_list m))
          end
      end
  end.

(** A value nested deeper than the number of heap objects passes through
    one object twice, so this depth fails exactly on a circular value, where
    [JSON.stringify] throws a [TypeError]. *)
Definition stringify (v : val) : M json := λ w,
  match encode (S (length (heap w))) (heap w) v with
  | Some j => (Normal j, w)
  | None => (Throw (JsError msg_circular), w)
  end.

(** ** The field binder *)

(** A handler reads [parsedData] as of the render that created it and the
    updater passed to [setParsedData] reads the state as of its run; events
    are handled one at a time, so both are the current state [parsedData] of
    the world. *)

(** [handleFieldChange]: the functional update
    [prev ? { ...prev, [field]: value } : { [field]: value }] builds a fresh
    object and installs it as the current document. *)
Definition handleFieldChange (field : string) (value : val) : M unit :=
  prev ← getParsedData;
  h ← getHeap;
  next ← (if truthy prev
          then objectLit (<[field := value]> (ownProps h prev))
          else objectLit {[ field := value ]});
  setParsedData next.

(** ** The list editor *)

(** The three list-valued fields that have add, remove and per-entry edit
    handlers. *)
Inductive listField : Type := education | experience | projects.

Definition fieldName (f : listField) : string :=
  match f with
  | education => "education"
  | experience => "experience"
  | projects => "projects"
  end.

(** The object literal that each [add...] handler pushes. *)
Definition newEntry (f : listField) : M val :=
  match f with
  | education =>
      objectLit (<["degree" := VStr ""]> (<["institution" := VStr ""]>
                (<["start_year" := VStr ""]> (<["end_year" := VStr ""]>
                (<["description" := VStr ""]> ∅)))))
  | experience =>
      d ← arrayLit [VStr ""];
      objectLit (<["company" := VStr ""]> (<["title" := VStr ""]>
                (<["start_year" := VStr ""]> (<["end_year" := VStr ""]>
                (<["description" := d]> ∅)))))
  | projects =>
      d ← arrayLit [VStr ""];
      objectLit (<["project_name" := VStr ""]>
                (<["start_year" := VStr ""]> (<["end_year" := VStr ""]>
                (<["description" := d]> ∅))))
  end.

(** [addEducation], [addExperience], [addProject]:
    [const updated = parsedData?.f ? [...parsedData.f] : [];
     updated.push({...}); handleFieldChange("f", updated);] *)
Definition addEntry (f : listField) : M unit :=
  pd ← getParsedData;
  updated ← (cur ← optGetProp pd (fieldName f);
             if truthy cur then xs ← iterate cur; arrayLit xs else arrayLit []);
  entry ← newEntry f;
  push updated entry;;
  handleFieldChange (fieldName f) updated.

Definition addEducation : M unit := addEntry education.
Definition addExperience : M unit := addEntry experience.
Definition addProject : M unit := addEntry projects.

(** [removeEducation], [removeExperience], [removeProject]:
    [const updated = [...(parsedData?.f || [])];
     updated.splice(i, 1); handleFieldChange("f", updated);] *)
Definition removeEntry (f : listField) (i : Z) : M unit :=
  pd ← getParsedData;
  updated ← (cur ← optGetProp pd (fieldName f);
             src ← (if truthy cur then mret cur else arrayLit []);
             xs ← iterate src;
             arrayLit xs);
  splice updated i 1;;
  handleFieldChange (fieldName f) updated.

Definition removeEducation (i : Z) : M unit := removeEntry education i.
Definition removeExperience (i : Z) : M unit := removeEntry experience i.
Definition removeProject (i : Z) : M unit := removeEntry projects i.

(** The [onChange] handler of one input of entry [i] of list [f]:
    [const updated = [...parsedData.f!]; updated[i].s = rhs;
     handleFieldChange("f", updated);]
    The array is copied, the entry object is not: the assignment writes into
    the object that the array of the current document holds as well. *)
Definition updateEntryField (f : listField) (i : nat) (s : string) (rhs : M val) : M unit :=
  pd ← getParsedData;
  updated ← (cur ← getProp pd (fieldName f); xs ← iterate cur; arrayLit xs);
  entry ← getIndex updated i;
  v ← rhs;
  setProp entry s v;;
  handleFieldChange (fieldName f) updated.

(** A text input: [updated[i].s = e.target.value]. *)
Definition editEntryText (f : listField) (i : nat) (s : string) (text : string) : M unit :=
  updateEntryField f i s (mret (VStr text)).

(** The bullet-point text area of an experience or a project:
    [updated[i].description = e.target.value.split("\n")]. *)
Definition editEntryLines (f : listField) (i : nat) (text : string) : M unit :=
  updateEntryField f i "description" (arrayLit (VStr <$> split newline text)).

(** The three bulk text fields. *)
Inductive bulkField : Type := technical_skills | certifications | languages.

Definition bulkName (b : bulkField) : string :=
  match b with
  | technical_skills => "technical_skills"
  | certifications => "certifications"
  | languages => "languages"
  end.

(** The [onChange] handler of a bulk text area:
    [handleFieldChange("b", e.target.value.split(","))]. *)
Definition editBulk (b : bulkField) (text : string) : M unit :=
  v ← arrayLit (VStr <$> split comma text);
  handleFieldChange (bulkName b) v.

(** ** The network *)

Inductive jsonResult : Type :=
  | JsonRejects (e : thrown)
  | JsonResolves (data : json).

Record response : Type := Response {
  status : Z;
  statusText : string;
  body : jsonResult
}.

Inductive fetchResult : Type :=
  | FetchRejects (e : thrown)
  | FetchResolves (r : response).

(** [res.ok]: the status is in the range 200-299. *)
Definition ok (r : response) : bool := (200 <=? status r) && (status r <=? 299).

(** [await fetch(...)] *)
Definition fetch (r : fetchResult) : M response :=
  match r with
  | FetchRejects e => throw e
  | FetchResolves res => mret res
  end.

(** [await res.json()] *)
Definition resJson (res : response) : M val :=
  match body res with
  | JsonRejects e => throw e
  | JsonResolves data => loadJson data
  end.

(** ** The session controller *)

(** [handleFileChange] with the first selected file, if any. *)
Definition handleFileChange (files : list File) : M unit :=
  match files with
  | f :: _ => setFile (Some f)
  | [] => mret tt
  end.

Definition msg_parsing_failed : string := "Parsing failed. Please try another resume.".
Definition msg_unknown : string := "An unknown error occurred.".

(** [handleUpload]; [net] is the backend's answer to the posted file. *)
Definition handleUpload (net : File → fetchResult) : M unit :=
  selected ← getFile;
  match selected with
  | None => mret tt
  | Some f =>
      setLoading true;;
      setError None;;
      try_finally
        (try_catch
           (res ← fetch (net f);
            if negb (ok res) then throw (JsError ("Upload failed: " +:+ statusText res))
            else
              data ← resJson res;
              parsed ← getProp data "parsed";
              if truthy parsed
              then setParsedData parsed;;
                   url ← getProp data "pdf_url";
                   setPdfUrl url
              else setError (Some msg_parsing_failed))
           (λ err,
              match err with
              | JsError message => setError (Some message)
              | NonError => setError (Some msg_unknown)
              end))
        (setLoading false)
  end.

Section Engine.

(** The text the engine gives an object that is used as a string
    ([Array.prototype.toString], [Object.prototype.toString]); the program
    does not define it. *)
Variable objectToString : list obj → loc → string.

(** [ToString]. *)
Definition toString (h : list obj) (v : val) : string :=
  match v with
  | VUndef => "undefined"
  | VNull => "null"
  | VBool true => "true"
  | VBool false => "false"
  | VNum z => pretty z
  | VStr s => s
  | VRef l => objectToString h l
  end.

(** The text [join] gives one element: nothing for [null] and
    [undefined]. *)
Definition elementText (h : list obj) (v : val) : string :=
  match v with
  | VUndef | VNull => ""
  | _ => toString h v
  end.

Definition msg_not_a_function : string := "join is not a function".

(** The value shown in a bulk text area:
    [parsedData.b?.join(", ") || ""]. *)
Definition displayBulk (b : bulkField) : M string :=
  pd ← getParsedData;
  cur ← getProp pd (bulkName b);
  match cur with
  | VUndef | VNull => mret ""
  | _ =>
      h ← getHeap;
      match cur with
      | VRef l =>
          match h !! l with
          | Some (Obj (Some xs) _) => mret (join ", " (elementText h <$> xs))
          | _ => throw (JsError msg_not_a_function)
          end
      | _ => throw (JsError msg_not_a_function)
      end
  end.

(** The click handler of the save button; [net] is the backend's answer
    to the posted document and [now] is [new Date().getTime()]. *)
Definition handleSave (net : json → fetchResult) (now : Z) : M unit :=
  pd ← getParsedData;
  if negb (truthy pd) then mret tt
  else
    try_catch
      (payload ← objectLit {[ "parsed" := pd ]};
       request ← stringify payload;
       res ← fetch (net request);
       data ← resJson res;
       url ← getProp data "pdf_url";
       if truthy url
       then h ← getHeap; setPdfUrl (VStr (toString h url +:+ "?t=" +:+ pretty now))
       else mret tt)
      (λ err, console_error "Update failed" err).

End Engine.

(** * Specification vocabulary *)

(** The mapping a document stands for; no document is the empty mapping. *)
Definition fieldsOf (w : world) : gmap string val :=
  if truthy (parsedData w) then ownProps (heap w) (parsedData w) else ∅.

(** The current document binds list field [f] to an array with elements
    [xs]. *)
Definition boundList (w : world) (f : listField) (xs : list val) : Prop :=
  ∃ ld o la m,
    parsedData w = VRef ld ∧ heap w !! ld = Some o ∧
    props o !! fieldName f = Some (VRef la) ∧
    heap w !! la = Some (Obj (Some xs) m).

(** There is no document, or the document has no field [f]. *)
Definition noList (w : world) (f : listField) : Prop :=
  parsedData w = VNull ∨
  ∃ ld o, parsedData w = VRef ld ∧ heap w !! ld = Some o ∧
          props o !! fieldName f = None.

(** The elements of list field [f], an absent field counting as the empty
    list. *)
Definition currentList (w : world) (f : listField) (xs : list val) : Prop :=
  boundList w f xs ∨ (noList w f ∧ xs = []).

(** The subfields of an entry, by kind, as the [ResumeData] interface
    declares them. *)
Definition textSubfields (f : listField) : list string :=
  match f with
  | education => ["degree"; "institution"; "start_year"; "end_year"; "description"]
  | experience => ["company"; "title"; "start_year"; "end_year"]
  | projects => ["project_name"; "start_year"; "end_year"]
  end.

(** Only the description of an experience or of a project is a list. *)
Definition listSubfields (f : listField) : list string :=
  match f with
  | education => []
  | experience | projects => ["description"]
  end.

(** [e] is an entry of list [f] with every text subfield empty and every
    list subfield a one-element list of the empty text, and nothing else. *)
Definition defaultEntry (h : list obj) (f : listField) (e : val) : Prop :=
  ∃ le me,
    e = VRef le ∧ h !! le = Some (plainObject me) ∧
    (∀ s, s ∈ textSubfields f → me !! s = Some (VStr "")) ∧
    (∀ s, s ∈ listSubfields f →
          ∃ ls, me !! s = Some (VRef ls) ∧ h !! ls = Some (arrayObject [VStr ""])) ∧
    (∀ s, is_Some (me !! s) → s ∈ textSubfields f ++ listSubfields f).

(** The current document, if it is an object, is in the heap. *)
Definition docAllocated (w : world) : Prop :=
  ∀ l, parsedData w = VRef l → is_Some (heap w !! l).

(** [reaches h v l]: the object at [l] is part of the value [v] in heap
    [h]. *)
Inductive reaches (h : list obj) : val → loc → Prop :=
  | reaches_here l : reaches h (VRef l) l
  | reaches_elem l o xs x l' :
      h !! l = Some o → elems o = Some xs → x ∈ xs → reaches h x l' →
      reaches h (VRef l) l'
  | reaches_prop l o k x l' :
      h !! l = Some o → props o !! k = Some x → reaches h x l' →
      reaches h (VRef l) l'.

(** What one per-entry edit changes: the document binds [f] to a list with
    the same elements, the entry object [le] differs from [oe] in subfield
    [s] only, every other object of the previous heap is as it was, every
    other field of the document is as it was, and so is the JSON reading of
    every value that the entry is not part of. *)
Definition entryUpdated (w w' : world) (f : listField) (xs : list val)
    (le : loc) (oe : obj) (s : string) (v : val) : Prop :=
  boundList w' f xs ∧
  (∃ oe', heap w' !! le = Some oe' ∧ elems oe' = elems oe ∧
          props oe' !! s = Some v ∧
          ∀ s', s' ≠ s → props oe' !! s' = props oe !! s') ∧
  (∀ l o, l ≠ le → heap w !! l = Some o → heap w' !! l = Some o) ∧
  (∀ g, g ≠ fieldName f → fieldsOf w' !! g = fieldsOf w !! g) ∧
  (∀ fuel x t, ¬ reaches (heap w) x le →
               encode fuel (heap w) x = Some t → encode fuel (heap w') x = Some t).

(** Structural induction on JSON values, through the lists of an array and
    of an object. *)
Fixpoint json_ind (P : json → Prop)
    (HNull : P JNull) (HBool : ∀ b, P (JBool b)) (HNum : ∀ z, P (JNum z))
    (HStr : ∀ s, P (JStr s))
    (HArr : ∀ items, Forall P items → P (JArr items))
    (HObj : ∀ members, Forall (λ kv, P kv.2) members → P (JObj members))
    (j : json) {struct j} : P j :=
  match j with
  | JNull => HNull
  | JBool b => HBool b
  | JNum z => HNum z
  | JStr s => HStr s
  | JArr items =>
      HArr items
        ((fix go (l : list json) : Forall P l :=
            match l with
            | [] => ListDef.Forall_nil P
            | x :: l' =>
                ListDef.Forall_cons P x l' (json_ind P HNull HBool HNum HStr HArr HObj x) (go l')
            end) items)
  | JObj members =>
      HObj members
        ((fix go (l : list (string * json)) : Forall (λ kv, P kv.2) l :=
            match l with
            | [] => ListDef.Forall_nil _
            | (k, x) :: l' =>
                ListDef.Forall_cons (λ kv, P kv.2) (k, x) l'
                  (json_ind P HNull HBool HNum HStr HArr HObj x)
                  (go l')
            end) members)
  end.

(** The two loops of [load], by name: the elements of an array. *)
Fixpoint loadItems (js : list json) (h : list obj) : list val * list obj :=
  match js with
  | [] => ([], h)
  | j :: js' =>
      let '(v, h1) := load j h in
      let '(vs, h2) := loadItems js' h1 in
      (v :: vs, h2)
  end.

(** The members of an object, read into the map [m]. *)
Fixpoint loadMembers (kjs : list (string * json)) (m : gmap string val) (h : list obj)
    : gmap string val * list obj :=
  match kjs with
  | [] => (m, h)
  | (k, j) :: kjs' =>
      let '(v, h1) := load j h in
      loadMembers kjs' (<[k := v]> m) h1
  end.

(** An object of a JSON text has a member named [k]. *)
Definition hasMember (k : string) (members : list (string * json)) : bool :=
  existsb (λ kv, String.eqb kv.1 k) members.

(** The three kinds of failure of a request: the backend was not reached, it
    answered with a status outside 200-299, or it answered in that range but
    without the expected payload. *)
Inductive failureKind : Type := TransportError | ServerError | ParseFailure.

(** A decoded body that is a value without a field [k]: an object with no
    such member, or an array, a text, a number or a boolean.  Reading a field
    of [null] throws instead. *)
Definition lacksField (k : string) (data : json) : bool :=
  match data with
  | JObj members => negb (hasMember k members)
  | JNull => false
  | _ => true
  end.

(** The kind of failure of an answer to an upload, if it is one of the
    three. *)
Definition uploadFailure (r : fetchResult) : option failureKind :=
  match r with
  | FetchRejects _ => Some TransportError
  | FetchResolves res =>
      if negb (ok res) then Some ServerError
      else match body res with
           | JsonResolves data =>
               if lacksField "parsed" data then Some ParseFailure else None
           | JsonRejects _ => None
           end
  end.

(** The message shown for a failed upload. *)
Definition uploadMessage (r : fetchResult) : string :=
  match r with
  | FetchRejects (JsError message) => message
  | FetchRejects NonError => msg_unknown
  | FetchResolves res =>
      if negb (ok res) then "Upload failed: " +:+ statusText res
      else msg_parsing_failed
  end.

(** A computation that leaves the document alone: the current document
    reference, the error message and every object of the heap are as they
    were; the heap may have grown. *)
Definition keepsDocument {A} (c : M A) : Prop :=
  ∀ w, parsedData (c w).2 = parsedData w ∧
       error (c w).2 = error w ∧
       heap w `prefix_of` heap (c w).2.

(** The number of occurrences of a character in a text. *)
Fixpoint occurrences (c : ascii) (s : string) : nat :=
  match s with
  | EmptyString => 0
  | String a s' => (if Ascii.eqb a c then 1 else 0) + occurrences c s'
  end.

(** The current document binds field [name] to a list of the texts [ss]. *)
Definition boundTexts (w : world) (name : string) (ss : list string) : Prop :=
  ∃ ld o la m,
    parsedData w = VRef ld ∧ heap w !! ld = Some o ∧
    props o !! name = Some (VRef la) ∧
    heap w !! la = Some (Obj (Some (VStr <$> ss)) m).

(** ** A sample session *)


(** A parsed resume, as the backend sends it. *)
Definition sampleDocument : json :=
  JObj [("full_name", JStr "Jane Doe");
        ("education",
         JArr [JObj [("degree", JStr "BSc"); ("institution", JStr "MIT");
                     ("start_year", JStr "2010"); ("end_year", JStr "2014");
                     ("description", JStr "")]]);
        ("technical_skills", JArr [JStr "Go"; JStr "Rust"])].

(** The session after that resume has been loaded. *)
Definition sample : world :=
  let '(d, h) := load sampleDocument [] in
  World h (Some "resume.pdf") d VNull false None [].

(** A stand-in for the engine's object-to-text conversion. *)
Definition engineText : list obj → loc → string := λ _ _, "[object Object]".

(** The JSON reading of the sample document, with the degree of its
    education entry as given. *)
Definition sampleReading (degree : string) : json :=
  JObj [("education",
         JArr [JObj [("start_year", JStr "2010"); ("end_year", JStr "2014");
                     ("institution", JStr "MIT"); ("degree", JStr degree);
                     ("description", JStr "")]]);
        ("full_name", JStr "Jane Doe");
        ("technical_skills", JArr [JStr "Go"; JStr "Rust"])].

(** A successful answer to an upload. *)
Definition janeResponse : fetchResult :=
  FetchResolves
    (Response 200 "OK"
       (JsonResolves
          (JObj [("parsed", JObj [("full_name", JStr "Jane Doe"); ("education", JArr [])]);
                 ("pdf_url", JStr "http://x/r1.pdf")]))).

(** A fresh session in which a file has been chosen. *)
Definition fileChosen : world := World [] (Some "resume.pdf") VNull VNull false None [].

(** That session after the upload. *)
Definition jane : world := (handleUpload (λ _, janeResponse) fileChosen).2.

(** ** Rendered values and further vocabulary *)

(** [v || ""] *)
Definition orEmpty (v : val) : val := if truthy v then v else VStr "".

(** The value of a basic input: [parsedData.name || ""]. *)
Definition fieldValue (name : string) : M val :=
  pd ← getParsedData;
  v ← getProp pd name;
  mret (orEmpty v).

(** The value of a text input of an entry: [entry.s || ""], for the element
    [entry] that [map] passes to the callback. *)
Definition entryTextValue (entry : val) (s : string) : M val :=
  v ← getProp entry s;
  mret (orEmpty v).

(** [a.join(sep)] *)
Definition joinValue (objectToString : list obj → loc → string) (a : val) (sep : string)
    : M string := λ w,
  match a with
  | VUndef | VNull => (Throw (JsError (msg_read_nullish "join")), w)
  | VRef l =>
      match heap w !! l with
      | Some (Obj (Some xs) _) =>
          (Normal (join sep (elementText objectToString (heap w) <$> xs)), w)
      | _ => (Throw (JsError msg_not_a_function), w)
      end
  | _ => (Throw (JsError msg_not_a_function), w)
  end.

(** The value of the bullet-point text area of an entry:
    [entry.description.join("\n")]. *)
Definition entryLinesValue (objectToString : list obj → loc → string) (entry : val)
    : M string :=
  d ← getProp entry "description";
  joinValue objectToString d (String newline EmptyString).

(** The member of an object of a JSON text that [JSON.parse] keeps for a
    key: the last one. *)
Fixpoint lastMember (k : string) (members : list (string * json)) : option json :=
  match members with
  | [] => None
  | (k0, j) :: rest =>
      match lastMember k rest with
      | Some j' => Some j'
      | None => if String.eqb k0 k then Some j else None
      end
  end.

(** The value of a JSON text that is not an array or an object. *)
Definition primitive (j : json) : option val :=
  match j with
  | JNull => Some VNull
  | JBool b => Some (VBool b)
  | JNum z => Some (VNum z)
  | JStr s => Some (VStr s)
  | _ => None
  end.







(** The sample session after an experience entry has been added. *)
Definition sampleWithExperience : world := (addExperience sample).2.

(** An answer to an upload whose [parsed] member is [null]. *)
Definition falsyResponse : fetchResult :=
  FetchResolves
    (Response 200 "OK"
       (JsonResolves (JObj [("parsed", JNull); ("pdf_url", JStr "http://x/r1.pdf")]))).

(** An answer to a save with an error status that still names a preview. *)
Definition errorResponse : response :=
  Response 500 "Internal Server Error"
           (JsonResolves (JObj [("pdf_url", JStr "http://x/r2.pdf")])).

(** * Verification *)

(** ** Reading the heap after allocations *)

Lemma lookup_fresh (h k : list obj) (i : nat) :
  (h ++ k) !! (length h + i)%nat = k !! i.
Proof. rewrite lookup_app_r by lia. f_equal. lia. Qed.

Lemma lookup_fresh0 (h k : list obj) : (h ++ k) !! length h = k !! 0%nat.
Proof. rewrite <- (lookup_fresh h k 0). f_equal. lia. Qed.

Lemma insert_fresh0 (h k : list obj) (x : obj) :
  <[length h := x]> (h ++ k) = h ++ <[0%nat := x]> k.
Proof. rewrite <- (insert_app_r h k 0 x). f_equal. lia. Qed.

Lemma lookup_old (h k : list obj) (l : loc) (o : obj) :
  h !! l = Some o → (h ++ k) !! l = Some o.
Proof. apply lookup_app_l_Some. Qed.

Lemma lookup_unallocated (h : list obj) : h !! length h = None.
Proof. apply lookup_ge_None. lia. Qed.

(** Unfolding of the monad and of the primitives, and normal form of a heap
    that has grown: [h ++ [new cells]] read at [length h + i]. *)
Ltac unfold_M :=
  unfold objectLit, arrayLit, alloc, getParsedData, getHeap, getFile, putHeap,
    setParsedData, setPdfUrl, setLoading, setError, setFile, console_error,
    throw, try_catch, try_finally, getProp, optGetProp, getIndex, setProp, iterate,
    push, splice, modifyElems, mbind, M_bind, mret, M_ret in *.

Ltac heap_norm :=
  repeat (rewrite <- ?app_assoc, ?length_app, ?lookup_fresh0, ?lookup_fresh,
            ?insert_fresh0; simpl).

(** ** The field binder *)

Lemma handleFieldChange_run (field : string) (value : val) (w : world) :
  handleFieldChange field value w =
    (Normal tt,
     World (heap w ++ [plainObject (<[field := value]> (fieldsOf w))])
           (file w) (VRef (length (heap w))) (pdfUrl w) (loading w) (error w) (console w)).
Proof.
  unfold handleFieldChange, fieldsOf. unfold_M.
  destruct (truthy (parsedData w)); simpl; [done|].
  by rewrite insert_empty.
Qed.

(** C1. [handleFieldChange] (the specification's [setField]) completes
    normally and installs a document that is a new object; in it the field
    is bound to the value, every other field has the value it had, the very
    same reference where it is an object; and without a previous document
    the new one is the single-field document. *)
Theorem handleFieldChange_binds (w : world) (field : string) (value : val) :
  ∃ w' l m',
    handleFieldChange field value w = (Normal tt, w') ∧
    parsedData w' = VRef l ∧
    heap w !! l = None ∧
    heap w' !! l = Some (plainObject m') ∧
    m' !! field = Some value ∧
    (∀ g, g ≠ field → m' !! g = fieldsOf w !! g) ∧
    (truthy (parsedData w) = false → m' = {[ field := value ]}).
Proof.
  eexists _, (length (heap w)), _.
  split; [apply handleFieldChange_run|]. simpl.
  split; [done|].
  split; [apply lookup_unallocated|].
  split; [by rewrite lookup_fresh0|].
  split; [apply lookup_insert_eq|].
  split.
  - intros g Hg. by rewrite lookup_insert_ne.
  - intros Hfalse. unfold fieldsOf. rewrite Hfalse. apply insert_empty.
Qed.

(** Every object of the previous heap is still there, unchanged. *)
Lemma handleFieldChange_preserves (w w' : world) (field : string) (value : val) :
  handleFieldChange field value w = (Normal tt, w') →
  heap w `prefix_of` heap w'.
Proof.
  rewrite handleFieldChange_run. intros [= <-]. simpl. by apply prefix_app_r.
Qed.

(** ** The list editor *)

(** Case analysis on membership in an explicit list, and on the key of a
    binding in an explicit map. *)
Ltac in_cases H :=
  repeat (apply elem_of_cons in H as [-> | H]); [.. | by apply elem_of_nil in H].

Ltac key_cases H :=
  repeat (apply lookup_insert_Some in H as [[<- _] | [_ H]]; [by repeat constructor|]);
  by rewrite lookup_empty in H.

(** The entry that [newEntry] builds is the default entry, in any heap that
    keeps the objects it allocated. *)
Lemma newEntry_default (f : listField) (w : world) :
  ∃ e k,
    newEntry f w =
      (Normal e, World (heap w ++ k) (file w) (parsedData w) (pdfUrl w)
                       (loading w) (error w) (console w)) ∧
    ∀ h' k', length h' = length (heap w) → defaultEntry (h' ++ k ++ k') f e.
Proof.
  destruct f; unfold newEntry; unfold_M; simpl.
  - eexists _, [_]. split; [reflexivity|]. intros h' k' <-.
    eexists _, _. split; [reflexivity|]. split; [by heap_norm|].
    split; [|split].
    + intros s Hs. simpl in Hs. in_cases Hs; by vm_compute.
    + intros s Hs. simpl in Hs. in_cases Hs.
    + intros s [x Hx]. simpl. key_cases Hx.
  - eexists _, [_; _]. split; [by heap_norm|]. intros h' k' <-.
    eexists _, _. split; [reflexivity|]. split; [by heap_norm|].
    split; [|split].
    + intros s Hs. simpl in Hs. in_cases Hs; by vm_compute.
    + intros s Hs. simpl in Hs. in_cases Hs.
      eexists. split; [by vm_compute|]. by heap_norm.
    + intros s [x Hx]. simpl. key_cases Hx.
  - eexists _, [_; _]. split; [by heap_norm|]. intros h' k' <-.
    eexists _, _. split; [reflexivity|]. split; [by heap_norm|].
    split; [|split].
    + intros s Hs. simpl in Hs. in_cases Hs; by vm_compute.
    + intros s Hs. simpl in Hs. in_cases Hs.
      eexists. split; [by vm_compute|]. by heap_norm.
    + intros s [x Hx]. simpl. key_cases Hx.
Qed.

Lemma bind_run {A B} (c : M A) (f : A → M B) (w w1 : world) (a : A) :
  c w = (Normal a, w1) → (c ≫= f) w = f a w1.
Proof. unfold mbind, M_bind. by intros ->. Qed.

(** The first statement of an [add...] handler:
    [const updated = parsedData?.f ? [...parsedData.f] : []]. *)
Lemma copy_or_empty_run (w : world) (f : listField) (xs : list val) :
  currentList w f xs →
  (cur ← optGetProp (parsedData w) (fieldName f);
   if truthy cur then xs ← iterate cur; arrayLit xs else arrayLit []) w
  = (Normal (VRef (length (heap w))),
     World (heap w ++ [arrayObject xs]) (file w) (parsedData w) (pdfUrl w)
           (loading w) (error w) (console w)).
Proof.
  destruct w as [h fl pd pu lo er cs]; unfold currentList, boundList, noList; simpl.
  intros [(ld & o & la & m & Hpd & Hld & Hf & Hla) | [Hno ->]]; simpl in *.
  - subst pd. unfold_M. simpl. rewrite Hld. simpl. rewrite Hf. simpl. by rewrite Hla.
  - destruct Hno as [-> | (ld & o & -> & Hld & Hf)]; simpl in *; unfold_M; simpl; [done|].
    rewrite Hld. simpl. by rewrite Hf.
Qed.

Lemma currentList_allocated (w : world) (f : listField) (xs : list val) :
  currentList w f xs → docAllocated w.
Proof.
  intros [(ld & o & la & m & Hpd & Hld & _) | [[Hpd | (ld & o & Hpd & Hld & _)] _]] l Hl;
    rewrite Hpd in Hl; simplify_eq; eauto.
Qed.

Lemma fieldsOf_grow (w w' : world) :
  docAllocated w →
  parsedData w' = parsedData w →
  (∀ l o, heap w !! l = Some o → heap w' !! l = Some o) →
  fieldsOf w' = fieldsOf w.
Proof.
  intros Hal Hpd Hheap. unfold fieldsOf. rewrite Hpd.
  destruct (parsedData w) as [| | | | |l] eqn:E; try done. simpl.
  destruct (Hal l E) as [o Ho]. by rewrite (Hheap _ _ Ho), Ho.
Qed.

Lemma addEntry_run (w : world) (f : listField) (xs : list val) :
  currentList w f xs →
  ∃ e k,
    addEntry f w =
      (Normal tt,
       World (heap w ++ [arrayObject (xs ++ [e])] ++ k ++
                [plainObject (<[fieldName f := VRef (length (heap w))]> (fieldsOf w))])
             (file w) (VRef (length (heap w) + 1 + length k)%nat) (pdfUrl w)
             (loading w) (error w) (console w)) ∧
    ∀ k', defaultEntry (heap w ++ [arrayObject (xs ++ [e])] ++ k ++ k') f e.
Proof.
  intros Hcur.
  destruct (newEntry_default f
              (World (heap w ++ [arrayObject xs]) (file w) (parsedData w) (pdfUrl w)
                     (loading w) (error w) (console w)))
    as (e & k & Hrun & Hdef). simpl in *.
  exists e, k. split.
  - unfold addEntry.
    erewrite bind_run by reflexivity.
    erewrite bind_run by (by apply copy_or_empty_run).
    erewrite bind_run by apply Hrun.
    erewrite bind_run by (unfold_M; heap_norm; reflexivity).
    rewrite handleFieldChange_run. simpl. heap_norm.
    rewrite (fieldsOf_grow w);
      [|by eapply currentList_allocated|done|intros l o Ho; by apply lookup_old].
    do 3 f_equal. lia.
  - intros k'. specialize (Hdef (heap w ++ [arrayObject (xs ++ [e])]) k').
    rewrite <- app_assoc in Hdef. apply Hdef. rewrite !length_app. done.
Qed.

Lemma fieldsOf_same (w w' : world) :
  parsedData w' = parsedData w →
  (∀ l, parsedData w = VRef l → heap w' !! l = heap w !! l) →
  fieldsOf w' = fieldsOf w.
Proof.
  intros Hpd Hheap. unfold fieldsOf. rewrite Hpd.
  destruct (parsedData w) as [| | | | |l] eqn:E; try done. simpl.
  by rewrite (Hheap l eq_refl).
Qed.

Lemma spliced_in_range (i : Z) (xs : list val) :
  0 ≤ i < Z.of_nat (length xs) →
  spliced i 1 xs = delete (Z.to_nat i) xs.
Proof.
  intros Hi. unfold spliced.
  destruct (Z.ltb_spec i 0) as [|_]; [lia|].
  rewrite Z.min_l by lia.
  replace (Z.min (Z.max 1 0) (Z.of_nat (length xs) - i)) with 1 by lia.
  rewrite delete_take_drop. do 2 f_equal. lia.
Qed.

Lemma spliced_past_end (i : Z) (xs : list val) :
  Z.of_nat (length xs) ≤ i →
  spliced i 1 xs = xs.
Proof.
  intros Hi. unfold spliced.
  destruct (Z.ltb_spec i 0) as [|_]; [lia|].
  rewrite Z.min_r by lia.
  replace (Z.min (Z.max 1 0) (Z.of_nat (length xs) - Z.of_nat (length xs))) with 0 by lia.
  rewrite Z.add_0_r, Nat2Z.id, take_ge, drop_ge by lia. apply app_nil_r.
Qed.

(** The first statement of a [remove...] handler:
    [const updated = [...(parsedData?.f || [])]]. *)
Lemma copy_of_current_run (w : world) (f : listField) (xs : list val) :
  currentList w f xs →
  ∃ k0,
  (cur ← optGetProp (parsedData w) (fieldName f);
   src ← (if truthy cur then mret cur else arrayLit []);
   xs ← iterate src;
   arrayLit xs) w
  = (Normal (VRef (length (heap w) + length k0)%nat),
     World (heap w ++ k0 ++ [arrayObject xs]) (file w) (parsedData w) (pdfUrl w)
           (loading w) (error w) (console w)).
Proof.
  destruct w as [h fl pd pu lo er cs]; unfold currentList, boundList, noList; simpl.
  intros [(ld & o & la & m & Hpd & Hld & Hf & Hla) | [Hno ->]]; simpl in *.
  - exists []. subst pd. unfold_M. simpl. rewrite Hld. simpl. rewrite Hf. simpl.
    rewrite Hla. simpl. by rewrite Nat.add_0_r.
  - exists [arrayObject []].
    destruct Hno as [-> | (ld & o & -> & Hld & Hf)]; simpl in *; unfold_M; simpl.
    + by heap_norm.
    + rewrite Hld. simpl. rewrite Hf. simpl. by heap_norm.
Qed.

Lemma removeEntry_run (w : world) (f : listField) (i : Z) (xs : list val) :
  currentList w f xs →
  ∃ k0,
    removeEntry f i w =
      (Normal tt,
       World (heap w ++ k0 ++ [arrayObject (spliced i 1 xs)] ++
                [plainObject (<[fieldName f := VRef (length (heap w) + length k0)%nat]>
                                (fieldsOf w))])
             (file w) (VRef (length (heap w) + length k0 + 1)%nat) (pdfUrl w)
             (loading w) (error w) (console w)).
Proof.
  intros Hcur. destruct (copy_of_current_run w f xs Hcur) as [k0 Hcopy].
  exists k0. unfold removeEntry.
  erewrite bind_run by reflexivity.
  erewrite bind_run by apply Hcopy.
  erewrite bind_run.
  2:{ unfold_M. simpl. rewrite app_assoc, <- length_app, lookup_fresh0. simpl.
      rewrite insert_fresh0. simpl. reflexivity. }
  rewrite handleFieldChange_run. simpl.
  rewrite (fieldsOf_same w).
  - rewrite !length_app, <- !app_assoc. simpl. reflexivity.
  - done.
  - simpl. intros l Hl. destruct (currentList_allocated _ _ _ Hcur l Hl) as [o Ho].
    rewrite Ho. rewrite <- app_assoc. by apply lookup_old.
Qed.

Lemma lookup_fresh_after (h k0 k : list obj) (i : nat) :
  (h ++ k0 ++ k) !! (length h + length k0 + i)%nat = k !! i.
Proof. by rewrite app_assoc, <- length_app, lookup_fresh. Qed.

(** C3. On a document whose list field [f] has the [n] elements [xs] (none,
    when there is no document or no such field), the [add...] handler
    completes normally and binds [f] to a list of [n+1] elements: the first
    [n] are those of [xs], and the last is an entry with every text subfield
    the empty text and every list subfield the one-element list of the empty
    text. *)
Theorem addEntry_appends (w : world) (f : listField) (xs : list val) :
  currentList w f xs →
  ∃ w' e,
    addEntry f w = (Normal tt, w') ∧
    boundList w' f (xs ++ [e]) ∧
    length (xs ++ [e]) = S (length xs) ∧
    take (length xs) (xs ++ [e]) = xs ∧
    last (xs ++ [e]) = Some e ∧
    defaultEntry (heap w') f e.
Proof.
  intros Hcur. destruct (addEntry_run w f xs Hcur) as (e & k & Hrun & Hdef).
  eexists _, e. split; [apply Hrun|].
  split; [|split; [|split; [|split]]].
  - eexists _, _, (length (heap w)), ∅. simpl.
    split; [reflexivity|].
    split; [|split].
    + rewrite <- Nat.add_assoc, lookup_fresh. simpl.
      rewrite <- (Nat.add_0_r (length k)), lookup_fresh. reflexivity.
    + apply lookup_insert_eq.
    + by rewrite lookup_fresh0.
  - rewrite length_app. simpl. lia.
  - by rewrite take_app_length.
  - apply last_snoc.
  - simpl. apply (Hdef [_]).
Qed.

Lemma addEntry_preserves (w w' : world) (f : listField) (xs : list val) :
  currentList w f xs →
  addEntry f w = (Normal tt, w') →
  heap w `prefix_of` heap w'.
Proof.
  intros Hcur. destruct (addEntry_run w f xs Hcur) as (e & k & -> & _).
  intros [= <-]. simpl. by apply prefix_app_r.
Qed.


(** C10. Removing at an index at or past the end of the list leaves the
    elements of [f] as they were; an absent field ends up bound to the empty
    list. *)
Theorem removeEntry_past_end (w : world) (f : listField) (i : Z) (xs : list val) :
  currentList w f xs →
  Z.of_nat (length xs) ≤ i →
  ∃ w', removeEntry f i w = (Normal tt, w') ∧ boundList w' f xs.
Proof.
  intros Hcur Hi.
  destruct (removeEntry_run w f i xs Hcur) as [k0 Hrun].
  rewrite (spliced_past_end i xs Hi) in Hrun.
  eexists. split; [apply Hrun|].
  eexists _, _, (length (heap w) + length k0)%nat, ∅. simpl.
  split; [reflexivity|].
  split; [|split].
  - by rewrite lookup_fresh_after.
  - apply lookup_insert_eq.
  - by rewrite <- (Nat.add_0_r (_ + length k0)), lookup_fresh_after.
Qed.

Lemma removeEntry_preserves (w w' : world) (f : listField) (i : Z) (xs : list val) :
  currentList w f xs →
  removeEntry f i w = (Normal tt, w') →
  heap w `prefix_of` heap w'.
Proof.
  intros Hcur. destruct (removeEntry_run w f i xs Hcur) as (k0 & ->).
  intros [= <-]. simpl. by apply prefix_app_r.
Qed.

Lemma mapM_agree {A B} (f g : A → option B) (xs : list A) (ys : list B) :
  mapM f xs = Some ys →
  (∀ x y, x ∈ xs → f x = Some y → g x = Some y) →
  mapM g xs = Some ys.
Proof.
  intros Hf%mapM_Some_1 Hfg. apply mapM_Some_2.
  induction Hf as [|x y xs ys Hxy _ IH]; constructor.
  - apply Hfg; [left|done].
  - apply IH. intros x' y' Hin. apply Hfg. by right.
Qed.

(** The JSON reading of a value depends only on the objects that are part
    of it. *)
Lemma encode_stable (fuel : nat) (h h' : list obj) :
  ∀ (v : val) (t : json),
    encode fuel h v = Some t →
    (∀ l o, reaches h v l → h !! l = Some o → h' !! l = Some o) →
    encode fuel h' v = Some t.
Proof.
  induction fuel as [|fuel IH]; intros v t Henc Hsame; [done|].
  destruct v as [| | | | |l]; try done.
  simpl in *.
  destruct (h !! l) as [[[xs|] m]|] eqn:Hl; [| |done].
  - rewrite (Hsame l _ (reaches_here h l) Hl).
    destruct (mapM (encode fuel h) xs) as [ts|] eqn:Hm; [|done].
    erewrite mapM_agree; [done|done|].
    intros x y Hx Hxy. apply IH; [done|].
    intros l' o' Hr. apply Hsame. by eapply reaches_elem.
  - rewrite (Hsame l _ (reaches_here h l) Hl).
    destruct (mapM _ _) as [ts|] eqn:Hm in Henc; [|done].
    erewrite mapM_agree; [done|done|].
    intros [key x] y [_ Hx%elem_of_map_to_list]%list_elem_of_filter Hxy. simpl in *.
    destruct (encode fuel h x) as [tx|] eqn:Hex; [|done].
    rewrite (IH x tx Hex); [done|].
    intros l' o' Hr. apply Hsame. by eapply reaches_prop.
Qed.

Lemma encode_prefix (fuel : nat) (h h' : list obj) (v : val) (t : json) :
  h `prefix_of` h' → encode fuel h v = Some t → encode fuel h' v = Some t.
Proof.
  intros Hpre Henc. eapply encode_stable; [done|].
  intros l o _ Hl. by eapply prefix_lookup_Some.
Qed.

Lemma updateEntryField_run (w : world) (f : listField) (i : nat) (s : string)
    (rhs : M val) (ld la le : loc) (o oe : obj) (m : gmap string val)
    (xs : list val) (v : val) (k : list obj) :
  parsedData w = VRef ld →
  heap w !! ld = Some o →
  props o !! fieldName f = Some (VRef la) →
  heap w !! la = Some (Obj (Some xs) m) →
  xs !! i = Some (VRef le) →
  heap w !! le = Some oe →
  le ≠ ld →
  rhs (World (heap w ++ [arrayObject xs]) (file w) (parsedData w) (pdfUrl w)
             (loading w) (error w) (console w))
    = (Normal v, World (heap w ++ [arrayObject xs] ++ k) (file w) (parsedData w)
                       (pdfUrl w) (loading w) (error w) (console w)) →
  updateEntryField f i s rhs w =
    (Normal tt,
     World (<[le := Obj (elems oe) (<[s := v]> (props oe))]> (heap w) ++
              [arrayObject xs] ++ k ++
              [plainObject (<[fieldName f := VRef (length (heap w))]> (fieldsOf w))])
           (file w) (VRef (length (heap w) + 1 + length k)%nat) (pdfUrl w)
           (loading w) (error w) (console w)).
Proof.
  intros Hpd Hld Hf Hla Hi Hle Hne Hrhs.
  unfold updateEntryField.
  erewrite bind_run by reflexivity.
  erewrite bind_run.
  2:{ rewrite Hpd. unfold_M. rewrite Hld. simpl. rewrite Hf. simpl. rewrite Hla.
      reflexivity. }
  erewrite bind_run.
  2:{ unfold_M. simpl. rewrite lookup_fresh0. simpl. rewrite Hi. reflexivity. }
  erewrite bind_run by apply Hrhs.
  erewrite bind_run.
  2:{ unfold_M. simpl. rewrite (lookup_old _ _ _ _ Hle). simpl.
      rewrite insert_app_l by (by eapply lookup_lt_Some). reflexivity. }
  rewrite handleFieldChange_run. simpl.
  rewrite (fieldsOf_same w).
  - rewrite !length_app, length_insert, <- !app_assoc. simpl.
    do 3 f_equal. lia.
  - done.
  - simpl. intros l Hl. rewrite Hpd in Hl. injection Hl as <-.
    rewrite Hld. apply lookup_old. rewrite list_lookup_insert_ne; done.
Qed.

Lemma lookup_fresh_len (h k : list obj) (n i : nat) :
  length h = n → (h ++ k) !! (n + i)%nat = k !! i.
Proof. intros <-. apply lookup_fresh. Qed.

Lemma updateEntryField_frame (w : world) (f : listField) (i : nat) (s : string)
    (rhs : M val) (ld la le : loc) (o oe : obj) (m : gmap string val)
    (xs : list val) (v : val) (k : list obj) :
  parsedData w = VRef ld →
  heap w !! ld = Some o →
  props o !! fieldName f = Some (VRef la) →
  heap w !! la = Some (Obj (Some xs) m) →
  xs !! i = Some (VRef le) →
  heap w !! le = Some oe →
  le ≠ ld →
  rhs (World (heap w ++ [arrayObject xs]) (file w) (parsedData w) (pdfUrl w)
             (loading w) (error w) (console w))
    = (Normal v, World (heap w ++ [arrayObject xs] ++ k) (file w) (parsedData w)
                       (pdfUrl w) (loading w) (error w) (console w)) →
  ∃ w', updateEntryField f i s rhs w = (Normal tt, w') ∧
        heap w' = <[le := Obj (elems oe) (<[s := v]> (props oe))]> (heap w) ++
                    [arrayObject xs] ++ k ++
                    [plainObject (<[fieldName f := VRef (length (heap w))]> (fieldsOf w))] ∧
        entryUpdated w w' f xs le oe s v.
Proof.
  intros Hpd Hld Hf Hla Hi Hle Hne Hrhs.
  eexists. split; [by eapply updateEntryField_run|].
  split; [done|].
  set (h' := <[le := _]> (heap w)).
  assert (Hlen : length h' = length (heap w)) by apply length_insert.
  assert (Hold : ∀ l o0, l ≠ le → heap w !! l = Some o0 →
                         (h' ++ [arrayObject xs] ++ k ++
                          [plainObject (<[fieldName f := VRef (length (heap w))]> (fieldsOf w))])
                         !! l = Some o0).
  { intros l o0 Hl Ho0. apply lookup_old. subst h'. by rewrite list_lookup_insert_ne. }
  split; [|split; [|split; [|split]]]; simpl.
  - eexists _, _, (length (heap w)), ∅. simpl.
    split; [reflexivity|].
    split; [|split].
    + rewrite <- Nat.add_assoc, (lookup_fresh_len h' _ _ _ Hlen). simpl.
      rewrite <- (Nat.add_0_r (length k)), lookup_fresh. reflexivity.
    + apply lookup_insert_eq.
    + by rewrite <- (Nat.add_0_r (length (heap w))), (lookup_fresh_len h' _ _ _ Hlen).
  - exists (Obj (elems oe) (<[s := v]> (props oe))). split; [|split; [done|split]].
    + apply lookup_old. subst h'. apply list_lookup_insert_eq. by eapply lookup_lt_Some.
    + apply lookup_insert_eq.
    + intros s' Hs'. simpl. by rewrite lookup_insert_ne.
  - done.
  - intros g Hg. unfold fieldsOf at 1. simpl.
    rewrite <- Nat.add_assoc, (lookup_fresh_len h' _ _ _ Hlen). simpl.
    rewrite <- (Nat.add_0_r (length k)), lookup_fresh. simpl.
    by rewrite lookup_insert_ne.
  - intros fuel x t Hnr Henc. eapply encode_stable; [done|].
    intros l o0 Hr Ho0. apply Hold; [|done]. by intros ->.
Qed.

(** C5. On a document whose list field [f] has elements [xs], with entry
    [i] the object [le], an edit of subfield [s] of entry [i] completes
    normally, and in the resulting document only that subfield of that entry
    differs: the list has the same elements, the entry has the new value at
    [s] and its other subfields as before, every other object and every
    other field of the document is unchanged, and so is the value of
    everything the entry is not part of.  This holds for a text input and
    for the bullet-point text area, whose new value is a fresh list of the
    lines of the text. *)
Theorem updateEntryField_changes_only_subfield
    (w : world) (f : listField) (i : nat) (s : string)
    (ld la le : loc) (o oe : obj) (m : gmap string val) (xs : list val) :
  parsedData w = VRef ld →
  heap w !! ld = Some o →
  props o !! fieldName f = Some (VRef la) →
  heap w !! la = Some (Obj (Some xs) m) →
  xs !! i = Some (VRef le) →
  heap w !! le = Some oe →
  le ≠ ld →
  (∀ text, ∃ w',
     editEntryText f i s text w = (Normal tt, w') ∧
     entryUpdated w w' f xs le oe s (VStr text)) ∧
  (∀ text, ∃ w' ln,
     editEntryLines f i text w = (Normal tt, w') ∧
     entryUpdated w w' f xs le oe "description" (VRef ln) ∧
     heap w !! ln = None ∧
     heap w' !! ln = Some (arrayObject (VStr <$> split newline text))).
Proof.
  intros Hpd Hld Hf Hla Hi Hle Hne. split; intros text.
  - destruct (updateEntryField_frame w f i s (mret (VStr text)) ld la le o oe m xs
                (VStr text) [] Hpd Hld Hf Hla Hi Hle Hne) as (w' & Hrun & _ & Hupd).
    { reflexivity. }
    by exists w'.
  - destruct (updateEntryField_frame w f i "description"
                (arrayLit (VStr <$> split newline text)) ld la le o oe m xs
                (VRef (length (heap w) + 1)) [arrayObject (VStr <$> split newline text)]
                Hpd Hld Hf Hla Hi Hle Hne) as (w' & Hrun & Hheap & Hupd).
    { unfold_M. simpl. by rewrite length_app, <- app_assoc. }
    exists w', (length (heap w) + 1)%nat.
    split; [done|]. split; [done|]. split.
    + apply lookup_ge_None. lia.
    + rewrite Hheap. by rewrite (lookup_fresh_len _ _ _ _ (length_insert _ _ _)).
Qed.

(** ** In-place writes of the per-entry edit *)

(** C2. The per-entry edit does not keep the previous document as it was.
    On the sample document, changing the degree of the first education entry
    completes normally, and afterwards the previous document, read through
    the reference held before the edit, shows the new degree: the handler
    copied the list but wrote into the entry object that both lists
    share. *)
Theorem editEntry_writes_into_previous_document :
  ∃ w',
    editEntryText education 0 "degree" "MSc" sample = (Normal tt, w') ∧
    parsedData w' ≠ parsedData sample ∧
    encode 4 (heap sample) (parsedData sample) = Some (sampleReading "BSc") ∧
    encode 4 (heap w') (parsedData sample) = Some (sampleReading "MSc").
Proof.
  eexists. split; [by vm_compute|]. split; [by vm_compute|]. split; by vm_compute.
Qed.

(** The paths that do copy: the field binder and the add and remove handlers
    keep the JSON reading of every value of the previous heap. *)
Lemma copying_paths_keep_previous_document (w w' : world) (f : listField)
    (xs : list val) (fuel : nat) (x : val) (t : json) :
  encode fuel (heap w) x = Some t →
  (∀ field value, handleFieldChange field value w = (Normal tt, w') →
     encode fuel (heap w') x = Some t) ∧
  (currentList w f xs → addEntry f w = (Normal tt, w') →
     encode fuel (heap w') x = Some t) ∧
  (∀ i, currentList w f xs → removeEntry f i w = (Normal tt, w') →
     encode fuel (heap w') x = Some t).
Proof.
  intros Henc. repeat split.
  - intros field value Hrun. eapply encode_prefix; [|done].
    by eapply handleFieldChange_preserves.
  - intros Hcur Hrun. eapply encode_prefix; [|done]. by eapply addEntry_preserves.
  - intros i Hcur Hrun. eapply encode_prefix; [|done]. by eapply removeEntry_preserves.
Qed.

(** ** The session controller *)

Lemma load_JArr (items : list json) (h : list obj) :
  load (JArr items) h =
    let '(vs, h1) := loadItems items h in
    (VRef (length h1), h1 ++ [arrayObject vs]).
Proof. reflexivity. Qed.

Lemma load_JObj (members : list (string * json)) (h : list obj) :
  load (JObj members) h =
    let '(m, h1) := loadMembers members ∅ h in
    (VRef (length h1), h1 ++ [plainObject m]).
Proof. reflexivity. Qed.

Lemma load_prefix (j : json) : ∀ h, h `prefix_of` (load j h).2.
Proof.
  induction j as [| | | |items IH|members IH] using json_ind; intros h; try done.
  - rewrite load_JArr.
    assert (Hitems : ∀ h, h `prefix_of` (loadItems items h).2).
    { clear h. induction IH as [|j items Hj _ IHitems]; intros h; [done|]. simpl.
      specialize (Hj h). destruct (load j h) as [v h1]. simpl in Hj.
      specialize (IHitems h1). destruct (loadItems items h1) as [vs h2]. simpl in *.
      by etrans. }
    specialize (Hitems h). destruct (loadItems items h) as [vs h1]. simpl in *.
    by apply prefix_app_r.
  - rewrite load_JObj.
    assert (Hmembers : ∀ m h, h `prefix_of` (loadMembers members m h).2).
    { clear h. induction IH as [|[k j] members Hj _ IHmembers]; intros m h; [done|]. simpl.
      simpl in Hj. specialize (Hj h). destruct (load j h) as [v h1]. simpl in Hj.
      etrans; [done|]. apply IHmembers. }
    specialize (Hmembers ∅ h). destruct (loadMembers members ∅ h) as [m h1]. simpl in *.
    by apply prefix_app_r.
Qed.

Lemma loadMembers_absent (k : string) (members : list (string * json)) :
  hasMember k members = false →
  ∀ m h, m !! k = None → (loadMembers members m h).1 !! k = None.
Proof.
  induction members as [|[k0 j] members IH]; intros Hno m h Hm; [done|].
  simpl in *. apply orb_false_elim in Hno as [Hk Hno].
  destruct (load j h) as [v h1]. apply IH; [done|].
  rewrite lookup_insert_ne; [done|]. intros ->. by rewrite String.eqb_refl in Hk.
Qed.

(** Reading a field that a freshly parsed body lacks gives [undefined]. *)
Lemma getProp_lacking (k : string) (data : json) (w : world) :
  lacksField k data = true →
  getProp (load data (heap w)).1 k
    (World (load data (heap w)).2 (file w) (parsedData w) (pdfUrl w)
           (loading w) (error w) (console w))
  = (Normal VUndef,
     World (load data (heap w)).2 (file w) (parsedData w) (pdfUrl w)
           (loading w) (error w) (console w)).
Proof.
  destruct data as [| | | |items|members]; try done; intros Hlack.
  - rewrite load_JArr. destruct (loadItems items (heap w)) as [vs h1].
    unfold getProp. simpl. by rewrite lookup_fresh0.
  - rewrite load_JObj.
    pose proof (loadMembers_absent k members) as Habs.
    simpl in Hlack. apply negb_true_iff in Hlack.
    specialize (Habs Hlack ∅ (heap w) (lookup_empty k)).
    destruct (loadMembers members ∅ (heap w)) as [m h1]. simpl in *.
    unfold getProp. simpl. rewrite lookup_fresh0. simpl. by rewrite Habs.
Qed.

Lemma handleUpload_failure (net : File → fetchResult) (w : world) (f : File)
    (kind : failureKind) :
  file w = Some f →
  uploadFailure (net f) = Some kind →
  ∃ w',
    handleUpload net w = (Normal tt, w') ∧
    parsedData w' = parsedData w ∧
    pdfUrl w' = pdfUrl w ∧
    heap w `prefix_of` heap w' ∧
    error w' = Some (uploadMessage (net f)) ∧
    loading w' = false.
Proof.
  intros Hfile Hfail. unfold handleUpload.
  erewrite bind_run by reflexivity. rewrite Hfile.
  unfold uploadFailure, uploadMessage in *.
  destruct (net f) as [e|res] eqn:Hnet.
  - unfold_M. simpl.
    destruct e; simpl; eexists; (split; [reflexivity|]); done.
  - destruct (negb (ok res)) eqn:Hok.
    + unfold_M. simpl. rewrite Hok. simpl.
      eexists; (split; [reflexivity|]); done.
    + destruct (body res) as [e|data] eqn:Hbody; [done|].
      destruct (lacksField "parsed" data) eqn:Hlack; [|done].
      pose proof (getProp_lacking "parsed" data
                    (World (heap w) (file w) (parsedData w) (pdfUrl w) true None (console w))
                    Hlack) as Hget.
      pose proof (load_prefix data (heap w)) as Hpre.
      unfold_M. unfold fetch, resJson, loadJson. simpl.
      rewrite Hok, Hbody. simpl in *.
      destruct (load data (heap w)) as [v h1]. simpl in *.
      unfold getProp in Hget. rewrite Hget. simpl.
      eexists; (split; [reflexivity|]); done.
Qed.

Create HintDb keeps.

Lemma keeps_ret {A} (a : A) : keepsDocument (mret a : M A).
Proof. by intros w. Qed.

Lemma keeps_throw {A} (e : thrown) : keepsDocument (throw e : M A).
Proof. by intros w. Qed.

Lemma keeps_bind {A B} (c : M A) (f : A → M B) :
  keepsDocument c → (∀ a, keepsDocument (f a)) → keepsDocument (c ≫= f).
Proof.
  intros Hc Hf w. unfold mbind, M_bind.
  destruct (Hc w) as (Hd & He & Hh). destruct (c w) as [[a|e] w1]; simpl in *; [|done].
  destruct (Hf a w1) as (Hd' & He' & Hh'). repeat split; [congruence|congruence|by etrans].
Qed.

Lemma keeps_try_catch {A} (body : M A) (handler : thrown → M A) :
  keepsDocument body → (∀ e, keepsDocument (handler e)) →
  keepsDocument (try_catch body handler).
Proof.
  intros Hc Hf w. unfold try_catch.
  destruct (Hc w) as (Hd & He & Hh). destruct (body w) as [[a|e] w1]; simpl in *; [done|].
  destruct (Hf e w1) as (Hd' & He' & Hh'). repeat split; [congruence|congruence|by etrans].
Qed.

Lemma keeps_if {A} (b : bool) (c1 c2 : M A) :
  keepsDocument c1 → keepsDocument c2 → keepsDocument (if b then c1 else c2).
Proof. by destruct b. Qed.

Lemma keeps_getParsedData : keepsDocument getParsedData.
Proof. by intros w. Qed.

Lemma keeps_getHeap : keepsDocument getHeap.
Proof. by intros w. Qed.

Lemma keeps_setPdfUrl (u : val) : keepsDocument (setPdfUrl u).
Proof. by intros w. Qed.

Lemma keeps_console_error (label : string) (e : thrown) :
  keepsDocument (console_error label e).
Proof. by intros w. Qed.

Lemma keeps_alloc (o : obj) : keepsDocument (alloc o).
Proof. intros w. simpl. repeat split. by apply prefix_app_r. Qed.

Lemma keeps_getProp (v : val) (k : string) : keepsDocument (getProp v k).
Proof.
  intros w. unfold getProp.
  destruct v as [| | | | |l]; try done. by destruct (heap w !! l).
Qed.

Lemma keeps_stringify (v : val) : keepsDocument (stringify v).
Proof. intros w. unfold stringify. by destruct (encode _ _ _). Qed.

Lemma keeps_fetch (r : fetchResult) : keepsDocument (fetch r).
Proof. destruct r; [apply keeps_throw|apply keeps_ret]. Qed.

Lemma keeps_loadJson (data : json) : keepsDocument (loadJson data).
Proof.
  intros w. unfold loadJson. pose proof (load_prefix data (heap w)) as Hpre.
  by destruct (load data (heap w)).
Qed.

Lemma keeps_resJson (res : response) : keepsDocument (resJson res).
Proof. unfold resJson. destruct (body res); [apply keeps_throw|apply keeps_loadJson]. Qed.

Lemma keeps_objectLit (m : gmap string val) : keepsDocument (objectLit m).
Proof. apply keeps_bind; [apply keeps_alloc|intros; apply keeps_ret]. Qed.

#[local] Hint Resolve keeps_ret keeps_throw keeps_getParsedData keeps_getHeap
  keeps_setPdfUrl keeps_console_error keeps_getProp keeps_stringify keeps_fetch
  keeps_resJson keeps_objectLit keeps_if : keeps.
#[local] Hint Extern 2 (keepsDocument (_ ≫= _)) => (apply keeps_bind; [|intros]) : keeps.
#[local] Hint Extern 2 (keepsDocument (try_catch _ _)) =>
  (apply keeps_try_catch; [|intros]) : keeps.

Lemma keeps_handleSave (ots : list obj → loc → string) (net : json → fetchResult) (now : Z) :
  keepsDocument (handleSave ots net now).
Proof. unfold handleSave. auto 12 with keeps. Qed.

(** A [try]/[catch] whose handler cannot throw completes normally. *)
Lemma try_catch_total (body : M unit) (handler : thrown → M unit) :
  (∀ e w, ∃ w', handler e w = (Normal tt, w')) →
  ∀ w, ∃ w', try_catch body handler w = (Normal tt, w').
Proof.
  intros Hh w. unfold try_catch. destruct (body w) as [[[]|e] w1]; eauto.
Qed.

Lemma handleSave_total (ots : list obj → loc → string) (net : json → fetchResult)
    (now : Z) (w : world) :
  ∃ w', handleSave ots net now w = (Normal tt, w').
Proof.
  unfold handleSave. erewrite bind_run by reflexivity.
  destruct (negb (truthy (parsedData w))); [by eexists|].
  apply try_catch_total. intros e w1. by eexists.
Qed.

Lemma handleUpload_total (net : File → fetchResult) (w : world) :
  ∃ w', handleUpload net w = (Normal tt, w').
Proof.
  unfold handleUpload. erewrite bind_run by reflexivity.
  destruct (file w) as [f|]; [|by eexists].
  erewrite bind_run by reflexivity. erewrite bind_run by reflexivity.
  unfold try_finally.
  edestruct (try_catch_total) as [w1 ->]; [|by eexists].
  intros [message|] w1; by eexists.
Qed.

Lemma handleSave_rejects (ots : list obj → loc → string) (net : json → fetchResult)
    (now : Z) (w : world) (e : thrown) :
  truthy (parsedData w) = true →
  (∀ request, net request = FetchRejects e) →
  ∃ w' e',
    handleSave ots net now w = (Normal tt, w') ∧
    (e' = e ∨ e' = JsError msg_circular) ∧
    console w' = console w ++ [("Update failed", e')] ∧
    error w' = error w ∧
    pdfUrl w' = pdfUrl w.
Proof.
  intros Hpd Hnet. unfold handleSave.
  erewrite bind_run by reflexivity. rewrite Hpd. simpl.
  unfold try_catch. erewrite bind_run by reflexivity.
  unfold mbind, M_bind, stringify. cbn -[encode].
  destruct (encode _ _ _) as [request|]; simpl.
  - rewrite Hnet. simpl. eexists _, e. split; [reflexivity|]. by repeat split; [left|..].
  - eexists _, _. split; [reflexivity|]. by repeat split; [right|..].
Qed.

(** C8. Whatever the backend answers to a save, the handler completes
    normally with the current document as it was: the same reference, every
    object of the heap unchanged, hence the same JSON reading. *)
Theorem save_keeps_document (ots : list obj → loc → string)
    (net : json → fetchResult) (now : Z) (w : world) :
  ∃ w',
    handleSave ots net now w = (Normal tt, w') ∧
    parsedData w' = parsedData w ∧
    heap w `prefix_of` heap w' ∧
    ∀ fuel t, encode fuel (heap w) (parsedData w) = Some t →
              encode fuel (heap w') (parsedData w') = Some t.
Proof.
  destruct (handleSave_total ots net now w) as [w' Hrun].
  destruct (keeps_handleSave ots net now w) as (Hd & _ & Hh).
  rewrite Hrun in Hd, Hh. simpl in *.
  exists w'. repeat split; [done..|].
  intros fuel t Henc. rewrite Hd. by eapply encode_prefix.
Qed.

(** C6. An upload that fails by a transport error, a status outside 200-299,
    or a body without the [parsed] field leaves the document untouched (the
    same reference and the same contents; unset if it was unset) and sets
    the error message to a non-empty text.  For a transport error the
    message is the one the rejected [fetch] carries, which is taken to be
    non-empty. *)
Theorem upload_failure_keeps_document (net : File → fetchResult) (w : world)
    (f : File) (kind : failureKind) :
  file w = Some f →
  uploadFailure (net f) = Some kind →
  (∀ message, net f = FetchRejects (JsError message) → message ≠ "") →
  ∃ w' message,
    handleUpload net w = (Normal tt, w') ∧
    parsedData w' = parsedData w ∧
    (parsedData w = VNull → parsedData w' = VNull) ∧
    heap w `prefix_of` heap w' ∧
    (∀ fuel t, encode fuel (heap w) (parsedData w) = Some t →
               encode fuel (heap w') (parsedData w') = Some t) ∧
    error w' = Some message ∧
    message ≠ "".
Proof.
  intros Hfile Hfail Hmsg.
  destruct (handleUpload_failure net w f kind Hfile Hfail)
    as (w' & Hrun & Hd & _ & Hh & He & _).
  exists w', (uploadMessage (net f)).
  split; [done|]. split; [done|]. split; [congruence|]. split; [done|].
  split; [intros fuel t Henc; rewrite Hd; by eapply encode_prefix|].
  split; [done|].
  unfold uploadMessage. destruct (net f) as [[message|]|res] eqn:Hnet.
  - by apply Hmsg.
  - done.
  - by destruct (negb (ok res)).
Qed.

(** C7, as stated, fails for save: a save that cannot reach the backend
    completes normally with no error message set; the failure is only
    written to the console. *)
Lemma save_failure_not_surfaced :
  ¬ (∃ message,
       error (handleSave engineText (λ _, FetchRejects (JsError "Failed to fetch")) 0
                sample).2
       = Some message).
Proof. intros [message Hmsg]. vm_compute in Hmsg. discriminate. Qed.

(** C7, amended. No failure of an upload or of a save leaves the
    controller: both handlers complete normally whatever the backend does.
    An upload failure of each of the three kinds is turned into the one
    error message shown to the user.  A save that cannot reach the backend
    is caught and written to the console, and the error message stays as it
    was. *)
Theorem failures_stop_at_controller :
  (∀ net w, ∃ w', handleUpload net w = (Normal tt, w')) ∧
  (∀ ots net now w, ∃ w', handleSave ots net now w = (Normal tt, w')) ∧
  (∀ net w f kind,
     file w = Some f →
     uploadFailure (net f) = Some kind →
     ∃ w', handleUpload net w = (Normal tt, w') ∧
           error w' = Some (uploadMessage (net f))) ∧
  (∀ ots net now w e,
     truthy (parsedData w) = true →
     (∀ request, net request = FetchRejects e) →
     ∃ w' e', handleSave ots net now w = (Normal tt, w') ∧
              (e' = e ∨ e' = JsError msg_circular) ∧
              console w' = console w ++ [("Update failed", e')] ∧
              error w' = error w).
Proof.
  split; [apply handleUpload_total|].
  split; [apply handleSave_total|].
  split.
  - intros net w f kind Hfile Hfail.
    destruct (handleUpload_failure net w f kind Hfile Hfail) as (w' & Hrun & _ & _ & _ & He & _).
    eauto.
  - intros ots net now w e Hpd Hnet.
    destruct (handleSave_rejects ots net now w e Hpd Hnet) as (w' & e' & Hrun & He' & Hc & He & _).
    eauto 10.
Qed.

(** ** Bulk text fields *)

Lemma split_nonempty (c : ascii) (s : string) : split c s ≠ [].
Proof.
  induction s as [|a s IH]; simpl; [done|].
  destruct (Ascii.eqb a c); [done|]. by destruct (split c s).
Qed.

Lemma length_split (c : ascii) (s : string) :
  length (split c s) = S (occurrences c s).
Proof.
  induction s as [|a s IH]; simpl; [done|].
  destruct (Ascii.eqb a c); simpl; [by rewrite IH|].
  pose proof (split_nonempty c s). destruct (split c s); [done|]. simpl in *. lia.
Qed.

Lemma join_cons (sep x : string) (xs : list string) :
  xs ≠ [] → join sep (x :: xs) = x +:+ sep +:+ join sep xs.
Proof. by destruct xs. Qed.

(** Splitting cuts at every separator and loses nothing: putting the
    separator back between the pieces gives the text again. *)
Lemma join_split (c : ascii) (s : string) :
  join (String c EmptyString) (split c s) = s.
Proof.
  induction s as [|a s IH]; simpl; [done|].
  destruct (Ascii.eqb_spec a c) as [->|Hne].
  - rewrite join_cons by apply split_nonempty. simpl. by rewrite IH.
  - pose proof (split_nonempty c s). destruct (split c s) as [|p rest]; [done|].
    rewrite <- IH. by destruct rest.
Qed.

Lemma split_pieces (c : ascii) (s : string) :
  Forall (λ piece, occurrences c piece = 0%nat) (split c s).
Proof.
  induction s as [|a s IH]; simpl; [by repeat constructor|].
  destruct (Ascii.eqb a c) eqn:Hac; [by constructor|].
  destruct (split c s) as [|p rest]; simpl.
  - repeat constructor. simpl. by rewrite Hac.
  - inversion IH; subst. constructor; [|done]. simpl. by rewrite Hac.
Qed.

Lemma occurrences_app (c : ascii) (s1 s2 : string) :
  occurrences c (s1 +:+ s2) = (occurrences c s1 + occurrences c s2)%nat.
Proof. induction s1 as [|a s1 IH]; simpl; [done|]. rewrite IH. lia. Qed.

Lemma occurrences_join (xs : list string) :
  occurrences comma (join ", " xs) =
    (sum_list (occurrences comma <$> xs) + (length xs - 1))%nat.
Proof.
  induction xs as [|x [|y rest] IH]; simpl in *; [done|lia|].
  rewrite !occurrences_app in *. simpl in *. lia.
Qed.

Lemma sum_list_Exists (ns : list nat) :
  Exists (λ n, (0 < n)%nat) ns → (0 < sum_list ns)%nat.
Proof. induction 1; simpl; lia. Qed.

(** A list with an element that contains a comma does not survive being
    shown and read back. *)
Lemma split_join_lossy (xs : list string) :
  Exists (λ x, (0 < occurrences comma x)%nat) xs →
  split comma (join ", " xs) ≠ xs.
Proof.
  intros Hex Heq.
  assert (Hlen : length (split comma (join ", " xs)) = length xs) by by rewrite Heq.
  rewrite length_split, occurrences_join in Hlen.
  assert (0 < sum_list (occurrences comma <$> xs))%nat.
  { apply sum_list_Exists. by apply Exists_fmap. }
  destruct xs; simpl in *; [by inversion Hex|lia].
Qed.

Lemma elementText_texts (ots : list obj → loc → string) (h : list obj) (ss : list string) :
  elementText ots h <$> (VStr <$> ss) = ss.
Proof. induction ss as [|s ss IH]; [done|]. rewrite !fmap_cons, IH. done. Qed.

Lemma displayBulk_run (ots : list obj → loc → string) (w : world) (b : bulkField)
    (ss : list string) :
  boundTexts w (bulkName b) ss →
  displayBulk ots b w = (Normal (join ", " ss), w).
Proof.
  intros (ld & o & la & m & Hpd & Hld & Hf & Hla).
  unfold displayBulk. erewrite bind_run by reflexivity.
  erewrite bind_run by (rewrite Hpd; unfold getProp; rewrite Hld, Hf; reflexivity).
  simpl. erewrite bind_run by reflexivity. rewrite Hla.
  by rewrite elementText_texts.
Qed.

Lemma editBulk_run (w : world) (b : bulkField) (text : string) :
  ∃ w', editBulk b text w = (Normal tt, w') ∧
        boundTexts w' (bulkName b) (split comma text) ∧
        heap w `prefix_of` heap w'.
Proof.
  unfold editBulk.
  erewrite bind_run by reflexivity.
  rewrite handleFieldChange_run. simpl.
  eexists. split; [reflexivity|]. split.
  - eexists _, _, (length (heap w)), ∅. simpl.
    split; [reflexivity|]. split; [|split].
    + by rewrite length_app, <- app_assoc, lookup_fresh.
    + apply lookup_insert_eq.
    + by rewrite <- app_assoc, lookup_fresh0.
  - simpl. rewrite <- app_assoc. by apply prefix_app_r.
Qed.

(** C9. A bulk text field shows its list joined with a comma and a space;
    an edit binds the field to the pieces of the entered text cut at every
    comma, nothing trimmed and nothing lost; the text "Go, Rust,C++" gives
    the three pieces "Go", " Rust", "C++"; and a list with an element that
    contains a comma is not what is read back from its own display. *)
Theorem bulk_fields_join_and_split :
  (∀ ots w b ss,
     boundTexts w (bulkName b) ss →
     displayBulk ots b w = (Normal (join ", " ss), w)) ∧
  (∀ w b text, ∃ w',
     editBulk b text w = (Normal tt, w') ∧
     boundTexts w' (bulkName b) (split comma text)) ∧
  (∀ text,
     join "," (split comma text) = text ∧
     Forall (λ piece, occurrences comma piece = 0%nat) (split comma text) ∧
     length (split comma text) = S (occurrences comma text)) ∧
  (∀ w, ∃ w',
     editBulk technical_skills "Go, Rust,C++" w = (Normal tt, w') ∧
     boundTexts w' "technical_skills" ["Go"; " Rust"; "C++"]) ∧
  (∀ xs, Exists (λ x, (0 < occurrences comma x)%nat) xs →
         split comma (join ", " xs) ≠ xs).
Proof.
  split; [|split; [|split; [|split]]].
  - intros ots w b ss. apply displayBulk_run.
  - intros w b text. destruct (editBulk_run w b text) as (w' & Hrun & Hb & _). eauto.
  - intros text. split; [apply join_split|]. split; [apply split_pieces|apply length_split].
  - intros w. destruct (editBulk_run w technical_skills "Go, Rust,C++") as (w' & Hrun & Hb & _).
    eauto.
  - apply split_join_lossy.
Qed.

(** ** The scenarios of the specification *)

Example upload_scenario :
  (handleUpload (λ _, janeResponse) fileChosen).1 = Normal tt ∧
  encode 3 (heap jane) (parsedData jane)
    = Some (JObj [("education", JArr []); ("full_name", JStr "Jane Doe")]) ∧
  pdfUrl jane = VStr "http://x/r1.pdf" ∧
  error jane = None ∧
  loading jane = false.
Proof. repeat split; by vm_compute. Qed.

Example append_on_absent_experience :
  (addExperience jane).1 = Normal tt ∧
  encode 5 (heap (addExperience jane).2) (parsedData (addExperience jane).2)
    = Some (JObj [("education", JArr []);
                  ("experience",
                   JArr [JObj [("start_year", JStr ""); ("company", JStr "");
                               ("end_year", JStr ""); ("title", JStr "");
                               ("description", JArr [JStr ""])]]);
                  ("full_name", JStr "Jane Doe")]).
Proof. split; by vm_compute. Qed.

Example upload_http_500 :
  handleUpload (λ _, FetchResolves (Response 500 "Internal Server Error"
                                      (JsonRejects NonError))) fileChosen
  = (Normal tt,
     World [] (Some "resume.pdf") VNull VNull false
           (Some "Upload failed: Internal Server Error") []).
Proof. reflexivity. Qed.

Example save_stamps_preview :
  pdfUrl (handleSave engineText
            (λ _, FetchResolves (Response 200 "OK"
                    (JsonResolves (JObj [("pdf_url", JStr "http://x/r1.pdf")]))))
            1700000000000 jane).2
  = VStr "http://x/r1.pdf?t=1700000000000".
Proof. by vm_compute. Qed.

Example save_request :
  ((payload ← objectLit {[ "parsed" := parsedData jane ]}; stringify payload) jane).1
  = Normal (JObj [("parsed", JObj [("education", JArr []);
                                   ("full_name", JStr "Jane Doe")])]).
Proof. by vm_compute. Qed.

Example splice_from_the_end :
  spliced (-1) 1 [VStr "a"; VStr "b"; VStr "c"] = [VStr "a"; VStr "b"].
Proof. reflexivity. Qed.

Example split_empty_text : split comma "" = [""].
Proof. reflexivity. Qed.

Example split_lines : split newline ("built it" +:+ String newline "ran it") = ["built it"; "ran it"].
Proof. reflexivity. Qed.


(** ** The theorems at concrete inputs *)

Lemma sample_education : boundList sample education [VRef 0%nat].
Proof.
  eexists _, _, _, _. split; [reflexivity|]. split; [reflexivity|].
  split; [by vm_compute|]. reflexivity.
Defined.

Lemma sample_experience : currentList sample experience [].
Proof.
  right. split; [|reflexivity]. right.
  eexists _, _. split; [reflexivity|]. split; [reflexivity|]. by vm_compute.
Defined.

Lemma handleFieldChange_binds_witness :
  ∃ w' l m',
    handleFieldChange "title" (VStr "Engineer") initial = (Normal tt, w') ∧
    parsedData w' = VRef l ∧
    heap initial !! l = None ∧
    heap w' !! l = Some (plainObject m') ∧
    m' !! "title" = Some (VStr "Engineer") ∧
    (∀ g, g ≠ "title" → m' !! g = fieldsOf initial !! g) ∧
    (truthy (parsedData initial) = false → m' = {[ "title" := VStr "Engineer" ]}).
Proof. apply (handleFieldChange_binds initial "title" (VStr "Engineer")). Defined.

Lemma addEntry_appends_witness :
  currentList sample experience [] ∧
  ∃ w' e,
    addEntry experience sample = (Normal tt, w') ∧
    boundList w' experience ([] ++ [e]) ∧
    length ([] ++ [e]) = 1%nat ∧
    take 0 ([] ++ [e]) = [] ∧
    last ([] ++ [e]) = Some e ∧
    defaultEntry (heap w') experience e.
Proof.
  split; [apply sample_experience|].
  apply (addEntry_appends sample experience [] sample_experience).
Defined.


Lemma removeEntry_past_end_witness :
  currentList sample education [VRef 0%nat] ∧
  Z.of_nat (length [VRef 0%nat]) ≤ 1 ∧
  ∃ w', removeEntry education 1 sample = (Normal tt, w') ∧
        boundList w' education [VRef 0%nat].
Proof.
  assert (Hi : Z.of_nat (length [VRef 0%nat]) ≤ 1) by (simpl; lia).
  split; [left; apply sample_education|]. split; [exact Hi|].
  apply (removeEntry_past_end sample education 1 [VRef 0%nat]
           (or_introl sample_education) Hi).
Defined.

Lemma updateEntryField_changes_only_subfield_witness :
  ∃ o oe,
    heap sample !! 3%nat = Some o ∧
    heap sample !! 0%nat = Some oe ∧
    (∀ text, ∃ w',
       editEntryText education 0 "degree" text sample = (Normal tt, w') ∧
       entryUpdated sample w' education [VRef 0%nat] 0 oe "degree" (VStr text)) ∧
    (∀ text, ∃ w' ln,
       editEntryLines education 0 text sample = (Normal tt, w') ∧
       entryUpdated sample w' education [VRef 0%nat] 0 oe "description" (VRef ln) ∧
       heap sample !! ln = None ∧
       heap w' !! ln = Some (arrayObject (VStr <$> split newline text))).
Proof.
  eexists _, _. split; [reflexivity|]. split; [reflexivity|].
  eapply (updateEntryField_changes_only_subfield sample education 0 "degree" 3 1 0).
  - reflexivity.
  - reflexivity.
  - by vm_compute.
  - reflexivity.
  - reflexivity.
  - reflexivity.
  - lia.
Defined.

Lemma upload_failure_keeps_document_witness :
  ∃ w' message,
    handleUpload (λ _, FetchRejects (JsError "Failed to fetch")) sample = (Normal tt, w') ∧
    parsedData w' = parsedData sample ∧
    (parsedData sample = VNull → parsedData w' = VNull) ∧
    heap sample `prefix_of` heap w' ∧
    (∀ fuel t, encode fuel (heap sample) (parsedData sample) = Some t →
               encode fuel (heap w') (parsedData w') = Some t) ∧
    error w' = Some message ∧
    message ≠ "".
Proof.
  apply (upload_failure_keeps_document (λ _, FetchRejects (JsError "Failed to fetch"))
           sample "resume.pdf" TransportError).
  - reflexivity.
  - reflexivity.
  - intros message [= <-]. discriminate.
Defined.

Lemma failures_stop_at_controller_witness :
  (∃ w', handleUpload (λ _, FetchResolves (Response 500 "Internal Server Error"
                                             (JsonRejects NonError))) sample
           = (Normal tt, w') ∧
         error w' = Some "Upload failed: Internal Server Error") ∧
  (∃ w' e', handleSave engineText (λ _, FetchRejects (JsError "Failed to fetch")) 0 sample
              = (Normal tt, w') ∧
            (e' = JsError "Failed to fetch" ∨ e' = JsError msg_circular) ∧
            console w' = console sample ++ [("Update failed", e')] ∧
            error w' = error sample).
Proof.
  destruct failures_stop_at_controller as (_ & _ & Hupload & Hsave). split.
  - apply (Hupload (λ _, FetchResolves (Response 500 "Internal Server Error"
                                          (JsonRejects NonError)))
             sample "resume.pdf" ServerError); reflexivity.
  - apply (Hsave engineText (λ _, FetchRejects (JsError "Failed to fetch")) 0 sample
             (JsError "Failed to fetch")); [reflexivity|]. intros request. reflexivity.
Defined.

Lemma save_keeps_document_witness :
  ∃ w',
    handleSave engineText
      (λ _, FetchResolves (Response 200 "OK"
                             (JsonResolves (JObj [("pdf_url", JStr "http://x/r1.pdf")]))))
      1700000000000 sample = (Normal tt, w') ∧
    parsedData w' = parsedData sample ∧
    heap sample `prefix_of` heap w' ∧
    ∀ fuel t, encode fuel (heap sample) (parsedData sample) = Some t →
              encode fuel (heap w') (parsedData w') = Some t.
Proof. apply save_keeps_document. Defined.

Lemma sample_skills : boundTexts sample "technical_skills" ["Go"; "Rust"].
Proof.
  eexists _, _, _, _. split; [reflexivity|]. split; [reflexivity|].
  split; [by vm_compute|]. reflexivity.
Defined.

Lemma bulk_fields_join_and_split_witness :
  displayBulk engineText technical_skills sample = (Normal "Go, Rust", sample) ∧
  split comma (join ", " ["a,b"]) ≠ ["a,b"].
Proof.
  destruct bulk_fields_join_and_split as (Hshow & _ & _ & _ & Hlossy). split.
  - apply (Hshow engineText sample technical_skills ["Go"; "Rust"] sample_skills).
  - apply (Hlossy ["a,b"]). apply Exists_cons_hd. vm_compute. lia.
Defined.

(** * Further properties of the handlers *)

Lemma fieldsOf_after_change (w w' : world) (field : string) (value : val) :
  handleFieldChange field value w = (Normal tt, w') →
  fieldsOf w' = <[field := value]> (fieldsOf w).
Proof.
  rewrite handleFieldChange_run. intros [= <-].
  unfold fieldsOf at 1. simpl. by rewrite lookup_fresh0.
Qed.

(** X6. Two field edits in a row complete normally and leave the document
    with both bindings over its previous fields; edits of different fields
    give the same fields in either order, and of two edits of one field the
    later wins.  No object of the previous heap is touched. *)
Theorem field_edits_compose (w : world) (f g : string) (v u : val) :
  ∃ wfg wgf,
    (handleFieldChange f v;; handleFieldChange g u) w = (Normal tt, wfg) ∧
    (handleFieldChange g u;; handleFieldChange f v) w = (Normal tt, wgf) ∧
    fieldsOf wfg = <[g := u]> (<[f := v]> (fieldsOf w)) ∧
    (f ≠ g → fieldsOf wfg = fieldsOf wgf) ∧
    (f = g → fieldsOf wfg = <[g := u]> (fieldsOf w)) ∧
    heap w `prefix_of` heap wfg.
Proof.
  eexists _, _.
  split; [erewrite bind_run by apply handleFieldChange_run; apply handleFieldChange_run|].
  split; [erewrite bind_run by apply handleFieldChange_run; apply handleFieldChange_run|].
  rewrite !(fieldsOf_after_change _ _ _ _ (handleFieldChange_run _ _ _)).
  split; [done|]. split; [|split].
  - intros Hne. by apply insert_insert_ne.
  - intros ->. apply insert_insert_eq.
  - simpl. rewrite <- app_assoc. by apply prefix_app_r.
Qed.

Lemma orEmpty_text (text : string) : orEmpty (VStr text) = VStr text.
Proof. unfold orEmpty. simpl. by destruct (String.eqb_spec text "") as [->|]. Qed.

(** X7. A basic input shows what was typed into it: after
    [handleFieldChange name text] the value [parsedData.name || ""] is the
    text, the empty text included. *)
Theorem field_shows_what_was_typed (w : world) (name text : string) :
  ∃ w', handleFieldChange name (VStr text) w = (Normal tt, w') ∧
        fieldValue name w' = (Normal (VStr text), w').
Proof.
  eexists. split; [apply handleFieldChange_run|].
  unfold fieldValue. erewrite bind_run by reflexivity.
  erewrite bind_run.
  2:{ unfold getProp. simpl. rewrite lookup_fresh0. simpl.
      rewrite lookup_insert_eq. reflexivity. }
  unfold mret, M_ret. do 2 f_equal. apply orEmpty_text.
Qed.

(** X8. A text input of an entry shows what was typed into it: after the
    edit, the element at the same index of the list is the entry and its
    [entry.s || ""] is the text. *)
Theorem entry_shows_what_was_typed
    (w : world) (f : listField) (i : nat) (s : string)
    (ld la le : loc) (o oe : obj) (m : gmap string val) (xs : list val) (text : string) :
  parsedData w = VRef ld →
  heap w !! ld = Some o →
  props o !! fieldName f = Some (VRef la) →
  heap w !! la = Some (Obj (Some xs) m) →
  xs !! i = Some (VRef le) →
  heap w !! le = Some oe →
  le ≠ ld →
  ∃ w' entry,
    editEntryText f i s text w = (Normal tt, w') ∧
    boundList w' f xs ∧ xs !! i = Some entry ∧
    entryTextValue entry s w' = (Normal (VStr text), w').
Proof.
  intros Hpd Hld Hf Hla Hi Hle Hne.
  destruct (updateEntryField_frame w f i s (mret (VStr text)) ld la le o oe m xs
              (VStr text) [] Hpd Hld Hf Hla Hi Hle Hne eq_refl)
    as (w' & Hrun & _ & Hb & (oe' & Hoe' & _ & Hs & _) & _).
  exists w', (VRef le). split; [done|]. split; [done|]. split; [done|].
  unfold entryTextValue. erewrite bind_run.
  2:{ unfold getProp. rewrite Hoe', Hs. reflexivity. }
  unfold mret, M_ret. do 2 f_equal. apply orEmpty_text.
Qed.

(** X9. The bullet-point text area shows exactly what was typed: the text is
    stored as its lines and shown as the lines joined by a line break, which
    is the text again. *)
Theorem bullets_show_what_was_typed (ots : list obj → loc → string)
    (w : world) (f : listField) (i : nat)
    (ld la le : loc) (o oe : obj) (m : gmap string val) (xs : list val) (text : string) :
  parsedData w = VRef ld →
  heap w !! ld = Some o →
  props o !! fieldName f = Some (VRef la) →
  heap w !! la = Some (Obj (Some xs) m) →
  xs !! i = Some (VRef le) →
  heap w !! le = Some oe →
  le ≠ ld →
  ∃ w' entry,
    editEntryLines f i text w = (Normal tt, w') ∧
    boundList w' f xs ∧ xs !! i = Some entry ∧
    entryLinesValue ots entry w' = (Normal text, w').
Proof.
  intros Hpd Hld Hf Hla Hi Hle Hne.
  destruct (updateEntryField_frame w f i "description"
              (arrayLit (VStr <$> split newline text)) ld la le o oe m xs
              (VRef (length (heap w) + 1)) [arrayObject (VStr <$> split newline text)]
              Hpd Hld Hf Hla Hi Hle Hne)
    as (w' & Hrun & Hheap & Hb & (oe' & Hoe' & _ & Hs & _) & _).
  { unfold_M. simpl. by rewrite length_app, <- app_assoc. }
  exists w', (VRef le). split; [done|]. split; [done|]. split; [done|].
  unfold entryLinesValue. erewrite bind_run.
  2:{ unfold getProp. rewrite Hoe', Hs. reflexivity. }
  assert (Hd : heap w' !! (length (heap w) + 1)%nat
               = Some (arrayObject (VStr <$> split newline text))).
  { rewrite Hheap. by rewrite (lookup_fresh_len _ _ _ _ (length_insert _ _ _)). }
  unfold joinValue. simpl. rewrite Hd. simpl.
  by rewrite elementText_texts, join_split.
Qed.

Lemma split_no_separator (c : ascii) (s : string) :
  occurrences c s = 0%nat → split c s = [s].
Proof.
  induction s as [|a s IH]; simpl; [done|].
  destruct (Ascii.eqb a c); [done|]. intros H0. by rewrite IH.
Qed.

Lemma length_join_split (s : string) :
  String.length (join ", " (split comma s)) =
    (String.length s + occurrences comma s)%nat.
Proof.
  unfold comma. induction s as [|a s IH]; simpl; [done|].
  destruct (Ascii.eqb a ","%char).
  - rewrite join_cons by apply split_nonempty.
    change (String.length (join ", " (split "," s))) with
      (String.length ("" +:+ join ", " (split "," s))) in IH.
    simpl. rewrite IH. lia.
  - pose proof (split_nonempty ","%char s) as Hne.
    destruct (split ","%char s) as [|p rest]; [done|].
    trans (S (String.length (join ", " (p :: rest)))); [by destruct rest|].
    rewrite IH. lia.
Qed.

(** X10. A bulk text area does not show what was typed but the pieces joined
    by a comma and a space: the shown text is longer than the typed one by
    the number of its commas, so it is the typed text exactly when that has
    no comma; and the stored list is never empty. *)
Theorem bulk_shows_reformatted (ots : list obj → loc → string) (w : world)
    (b : bulkField) (text : string) :
  ∃ w' shown,
    editBulk b text w = (Normal tt, w') ∧
    displayBulk ots b w' = (Normal shown, w') ∧
    shown = join ", " (split comma text) ∧
    String.length shown = (String.length text + occurrences comma text)%nat ∧
    (shown = text ↔ occurrences comma text = 0%nat) ∧
    split comma text ≠ [].
Proof.
  destruct (editBulk_run w b text) as (w' & Hrun & Hb & _).
  exists w', (join ", " (split comma text)).
  split; [done|]. split; [by apply displayBulk_run|]. split; [done|].
  split; [apply length_join_split|]. split; [|apply split_nonempty].
  split.
  - intros Heq. pose proof (length_join_split text) as Hlen. rewrite Heq in Hlen. lia.
  - intros H0. by rewrite split_no_separator.
Qed.

Lemma bind_throw {A B} (c : M A) (f : A → M B) (w w1 : world) (e : thrown) :
  c w = (Throw e, w1) → (c ≫= f) w = (Throw e, w1).
Proof. unfold mbind, M_bind. by intros ->. Qed.

Lemma addEntry_effect (w : world) (f : listField) (xs : list val) :
  currentList w f xs →
  ∃ w' e la,
    addEntry f w = (Normal tt, w') ∧
    boundList w' f (xs ++ [e]) ∧
    fieldsOf w' = <[fieldName f := VRef la]> (fieldsOf w) ∧
    heap w `prefix_of` heap w'.
Proof.
  intros Hcur. destruct (addEntry_run w f xs Hcur) as (e & k & Hrun & _).
  eexists _, e, (length (heap w)). split; [apply Hrun|].
  assert (Hdoc : ∀ m : gmap string val,
            (heap w ++ arrayObject (xs ++ [e]) :: k ++ [plainObject m])
              !! (length (heap w) + 1 + length k)%nat = Some (plainObject m)).
  { intros m. rewrite <- Nat.add_assoc, lookup_fresh. simpl.
    by rewrite <- (Nat.add_0_r (length k)), lookup_fresh. }
  split; [|split].
  - eexists _, _, (length (heap w)), ∅. simpl.
    split; [reflexivity|]. split; [apply Hdoc|].
    split; [apply lookup_insert_eq|]. by rewrite lookup_fresh0.
  - unfold fieldsOf at 1. simpl. by rewrite Hdoc.
  - simpl. by apply prefix_app_r.
Qed.

Lemma removeEntry_effect (w : world) (f : listField) (i : Z) (xs : list val) :
  currentList w f xs →
  ∃ w' la,
    removeEntry f i w = (Normal tt, w') ∧
    boundList w' f (spliced i 1 xs) ∧
    fieldsOf w' = <[fieldName f := VRef la]> (fieldsOf w) ∧
    heap w `prefix_of` heap w'.
Proof.
  intros Hcur. destruct (removeEntry_run w f i xs Hcur) as [k0 Hrun].
  eexists _, (length (heap w) + length k0)%nat. split; [apply Hrun|].
  split; [|split].
  - eexists _, _, (length (heap w) + length k0)%nat, ∅. simpl.
    split; [reflexivity|]. split; [by rewrite lookup_fresh_after|].
    split; [apply lookup_insert_eq|].
    by rewrite <- (Nat.add_0_r (_ + length k0)), lookup_fresh_after.
  - unfold fieldsOf at 1. simpl. by rewrite lookup_fresh_after.
  - simpl. by apply prefix_app_r.
Qed.

(** X11. The add and the remove handlers of a list leave every other field
    of the document as it was, fields the editor does not know included, and
    touch no object of the previous heap. *)
Theorem list_edits_keep_other_fields (w : world) (f : listField) (xs : list val) :
  currentList w f xs →
  (∃ w', addEntry f w = (Normal tt, w') ∧
         (∀ g, g ≠ fieldName f → fieldsOf w' !! g = fieldsOf w !! g) ∧
         heap w `prefix_of` heap w') ∧
  (∀ i, ∃ w', removeEntry f i w = (Normal tt, w') ∧
              (∀ g, g ≠ fieldName f → fieldsOf w' !! g = fieldsOf w !! g) ∧
              heap w `prefix_of` heap w').
Proof.
  intros Hcur. split.
  - destruct (addEntry_effect w f xs Hcur) as (w' & e & la & Hrun & _ & Hfields & Hpre).
    exists w'. split; [done|]. split; [|done].
    intros g Hg. by rewrite Hfields, lookup_insert_ne.
  - intros i.
    destruct (removeEntry_effect w f i xs Hcur) as (w' & la & Hrun & _ & Hfields & Hpre).
    exists w'. split; [done|]. split; [|done].
    intros g Hg. by rewrite Hfields, lookup_insert_ne.
Qed.

(** X12. Adding an entry and then removing the last index gives back the
    list as it was, with the other fields as they were. *)
Theorem add_then_remove_last (w : world) (f : listField) (xs : list val) :
  currentList w f xs →
  ∃ w',
    (addEntry f;; removeEntry f (Z.of_nat (length xs))) w = (Normal tt, w') ∧
    boundList w' f xs ∧
    (∀ g, g ≠ fieldName f → fieldsOf w' !! g = fieldsOf w !! g) ∧
    heap w `prefix_of` heap w'.
Proof.
  intros Hcur.
  destruct (addEntry_effect w f xs Hcur) as (w1 & e & la1 & Hrun1 & Hb1 & Hfields1 & Hpre1).
  destruct (removeEntry_effect w1 f (Z.of_nat (length xs)) (xs ++ [e]) (or_introl Hb1))
    as (w2 & la2 & Hrun2 & Hb2 & Hfields2 & Hpre2).
  exists w2. split; [by erewrite bind_run by apply Hrun1|].
  split; [|split].
  - rewrite spliced_in_range in Hb2 by (rewrite length_app; simpl; lia).
    by rewrite Nat2Z.id, delete_middle, app_nil_r in Hb2.
  - intros g Hg. by rewrite Hfields2, lookup_insert_ne, Hfields1, lookup_insert_ne.
  - by etrans.
Qed.



(** X14. A per-entry edit at an index past the end of the list throws a
    [TypeError] out of the handler; the current document stays the one it
    was and no object of the previous heap is touched. *)
Theorem editEntry_out_of_range (w : world) (f : listField) (i : nat) (s : string)
    (xs : list val) :
  boundList w f xs →
  (length xs ≤ i)%nat →
  (∀ text, ∃ w',
     editEntryText f i s text w = (Throw (JsError (msg_set_nullish s)), w') ∧
     parsedData w' = parsedData w ∧ heap w `prefix_of` heap w') ∧
  (∀ text, ∃ w',
     editEntryLines f i text w = (Throw (JsError (msg_set_nullish "description")), w') ∧
     parsedData w' = parsedData w ∧ heap w `prefix_of` heap w').
Proof.
  intros (ld & o & la & m & Hpd & Hld & Hf & Hla) Hi.
  assert (Hcopy :
    (cur ← getProp (parsedData w) (fieldName f); xs ← iterate cur; arrayLit xs) w
    = (Normal (VRef (length (heap w))),
       World (heap w ++ [arrayObject xs]) (file w) (parsedData w) (pdfUrl w)
             (loading w) (error w) (console w))).
  { rewrite Hpd. unfold_M. rewrite Hld. simpl. rewrite Hf. simpl. rewrite Hla. by rewrite Hpd. }
  assert (Hentry : ∀ k,
    getIndex (VRef (length (heap w))) i
      (World (heap w ++ arrayObject xs :: k) (file w) (parsedData w) (pdfUrl w)
             (loading w) (error w) (console w))
    = (Normal VUndef,
       World (heap w ++ arrayObject xs :: k) (file w) (parsedData w) (pdfUrl w)
             (loading w) (error w) (console w))).
  { intros k. unfold getIndex. simpl. rewrite lookup_fresh0. simpl.
    by rewrite (lookup_ge_None_2 xs i Hi). }
  split; intros text; eexists.
  - split.
    + unfold editEntryText, updateEntryField.
      erewrite bind_run by reflexivity.
      erewrite bind_run by apply Hcopy.
      erewrite bind_run by apply (Hentry []).
      erewrite bind_run by reflexivity.
      erewrite bind_throw by reflexivity. reflexivity.
    + simpl. split; [done|]. by apply prefix_app_r.
  - split.
    + unfold editEntryLines, updateEntryField.
      erewrite bind_run by reflexivity.
      erewrite bind_run by apply Hcopy.
      erewrite bind_run by apply (Hentry []).
      erewrite bind_run by reflexivity.
      erewrite bind_throw by reflexivity. reflexivity.
    + simpl. split; [done|]. rewrite <- app_assoc. by apply prefix_app_r.
Qed.

Lemma loadMembers_none (k : string) (members : list (string * json)) :
  lastMember k members = None →
  ∀ m h, (loadMembers members m h).1 !! k = m !! k.
Proof.
  induction members as [|[k0 j] members IH]; intros Hno m h; [done|].
  simpl in *. destruct (lastMember k members); [done|].
  destruct (String.eqb_spec k0 k) as [|Hne]; [done|].
  destruct (load j h) as [v h1]. rewrite IH by done. by rewrite lookup_insert_ne.
Qed.

Lemma load_primitive (j : json) (v : val) (h : list obj) :
  primitive j = Some v → load j h = (v, h).
Proof. destruct j; simpl; by intros [= <-]. Qed.

Lemma loadMembers_primitive (k : string) (members : list (string * json))
    (j : json) (v : val) :
  lastMember k members = Some j →
  primitive j = Some v →
  ∀ m h, (loadMembers members m h).1 !! k = Some v.
Proof.
  intros Hlast Hprim.
  induction members as [|[k0 j0] members IH]; intros m h; [done|].
  simpl in *. destruct (lastMember k members) as [j'|] eqn:Hrest.
  - destruct (load j0 h) as [v0 h1]. by apply IH.
  - destruct (String.eqb_spec k0 k) as [->|]; [|done].
    injection Hlast as ->. rewrite (load_primitive j v h Hprim).
    rewrite loadMembers_none by done. apply lookup_insert_eq.
Qed.

(** Reading a member of a freshly parsed object whose value is not an array
    or an object. *)
Lemma getProp_loaded_primitive (k : string) (members : list (string * json))
    (j : json) (v : val) (w : world) :
  lastMember k members = Some j →
  primitive j = Some v →
  getProp (load (JObj members) (heap w)).1 k
    (World (load (JObj members) (heap w)).2 (file w) (parsedData w) (pdfUrl w)
           (loading w) (error w) (console w))
  = (Normal v,
     World (load (JObj members) (heap w)).2 (file w) (parsedData w) (pdfUrl w)
           (loading w) (error w) (console w)).
Proof.
  intros Hlast Hprim. rewrite load_JObj.
  pose proof (loadMembers_primitive k members j v Hlast Hprim ∅ (heap w)) as Hk.
  destruct (loadMembers members ∅ (heap w)) as [m h1]. simpl in *.
  unfold getProp. simpl. rewrite lookup_fresh0. simpl. by rewrite Hk.
Qed.

(** X2. An answer whose [parsed] member is present but [null], [false], [0]
    or the empty text counts as a failed parse: the message is set, the
    document and the preview stay as they were. *)
Theorem upload_falsy_parsed (net : File → fetchResult) (w : world) (f : File)
    (res : response) (members : list (string * json)) (j : json) (v : val) :
  file w = Some f →
  net f = FetchResolves res →
  ok res = true →
  body res = JsonResolves (JObj members) →
  lastMember "parsed" members = Some j →
  primitive j = Some v →
  truthy v = false →
  ∃ w',
    handleUpload net w = (Normal tt, w') ∧
    parsedData w' = parsedData w ∧
    pdfUrl w' = pdfUrl w ∧
    heap w `prefix_of` heap w' ∧
    error w' = Some msg_parsing_failed ∧
    loading w' = false.
Proof.
  intros Hfile Hnet Hok Hbody Hlast Hprim Hfalsy. unfold handleUpload.
  erewrite bind_run by reflexivity. rewrite Hfile.
  pose proof (getProp_loaded_primitive "parsed" members j v
                (World (heap w) (file w) (parsedData w) (pdfUrl w) true None (console w))
                Hlast Hprim) as Hget.
  pose proof (load_prefix (JObj members) (heap w)) as Hpre.
  remember (JObj members) as data eqn:Hdata. clear Hdata.
  unfold_M. unfold fetch, resJson, loadJson. simpl. rewrite Hnet. simpl.
  rewrite Hok, Hbody. simpl in *.
  destruct (load data (heap w)) as [d h1]. simpl in *.
  unfold getProp in Hget. rewrite Hget. simpl. rewrite Hfalsy.
  eexists; (split; [reflexivity|]); done.
Qed.

(** X1. With a file chosen, every answer to an upload ends in one of two
    ways, with the loading flag off again and file and console unchanged:
    either the error is cleared and the document and the preview are the
    truthy [parsed] and the [pdf_url] of the decoded body of a 2xx answer, or
    the document and the preview are untouched and an error message is
    set. *)
Theorem upload_installs_or_reports (net : File → fetchResult) (w : world) (f : File) :
  file w = Some f →
  ∃ w',
    handleUpload net w = (Normal tt, w') ∧
    loading w' = false ∧ file w' = file w ∧ console w' = console w ∧
    heap w `prefix_of` heap w' ∧
    ((error w' = None ∧ truthy (parsedData w') = true ∧
      ∃ res data,
        net f = FetchResolves res ∧ ok res = true ∧ body res = JsonResolves data ∧
        heap w' = (load data (heap w)).2 ∧
        getProp (load data (heap w)).1 "parsed" w' = (Normal (parsedData w'), w') ∧
        getProp (load data (heap w)).1 "pdf_url" w' = (Normal (pdfUrl w'), w'))
     ∨
     (parsedData w' = parsedData w ∧ pdfUrl w' = pdfUrl w ∧
      ∃ message, error w' = Some message)).
Proof.
  intros Hfile. unfold handleUpload.
  erewrite bind_run by reflexivity. rewrite Hfile.
  destruct (net f) as [e|res] eqn:Hnet.
  { unfold_M. simpl.
    destruct e; simpl; eexists; (split; [reflexivity|]); simpl;
      repeat split; try done; right; eauto. }
  destruct (ok res) eqn:Hok.
  2:{ unfold_M. simpl. rewrite Hok. simpl.
      eexists; (split; [reflexivity|]); simpl; repeat split; try done; right; eauto. }
  destruct (body res) as [e|data] eqn:Hbody.
  { unfold_M. unfold resJson. simpl. rewrite Hok, Hbody. simpl.
    destruct e; simpl; eexists; (split; [reflexivity|]); simpl;
      repeat split; try done; right; eauto. }
  pose proof (load_prefix data (heap w)) as Hpre.
  unfold_M. unfold resJson, loadJson. simpl. rewrite Hok, Hbody. simpl.
  destruct (load data (heap w)) as [d h1] eqn:Hload. simpl in *.
  destruct d as [| | | | |l]; simpl;
    try (eexists; (split; [reflexivity|]); simpl; repeat split; try done; right; by eauto).
  destruct (h1 !! l) as [o|] eqn:Hl; simpl;
    [|eexists; (split; [reflexivity|]); simpl; repeat split; try done; right; by eauto].
  destruct (truthy (default VUndef (props o !! "parsed"))) eqn:Htruthy; simpl;
    [|eexists; (split; [reflexivity|]); simpl; repeat split; try done; right; by eauto].
  rewrite Hl. simpl.
  eexists; (split; [reflexivity|]); simpl. repeat split; try done.
  left. repeat split; try done.
  exists res, data. rewrite Hload. simpl. rewrite Hl. by repeat split.
Qed.

(** The request that a save posts: the document under the key [parsed]. *)
Lemma save_request_run (w : world) (t : json) :
  truthy (parsedData w) = true →
  encode (S (length (heap w))) (heap w) (parsedData w) = Some t →
  stringify (VRef (length (heap w)))
    (World (heap w ++ [plainObject {[ "parsed" := parsedData w ]}]) (file w)
           (parsedData w) (pdfUrl w) (loading w) (error w) (console w))
  = (Normal (JObj [("parsed", t)]),
     World (heap w ++ [plainObject {[ "parsed" := parsedData w ]}]) (file w)
           (parsedData w) (pdfUrl w) (loading w) (error w) (console w)).
Proof.
  intros Hpd Henc.
  unfold stringify. cbn -[encode].
  assert (Hwrap :
    encode (S (length (heap w ++ [plainObject {[ "parsed" := parsedData w ]}])))
           (heap w ++ [plainObject {[ "parsed" := parsedData w ]}])
           (VRef (length (heap w)))
    = Some (JObj [("parsed", t)])).
  { cbn [encode]. rewrite lookup_fresh0. cbn -[encode].
    rewrite map_to_list_singleton.
    rewrite filter_cons_True by (simpl; intros Heq; by rewrite Heq in Hpd).
    rewrite filter_nil. rewrite length_app, Nat.add_1_r. cbn -[encode].
    rewrite (encode_prefix _ _ _ _ _ (prefix_app_r _ _ _ (reflexivity _)) Henc).
    reflexivity. }
  by rewrite Hwrap.
Qed.


Lemma append_inj_r (p a b : string) : p +:+ a = p +:+ b → a = b.
Proof. induction p as [|c p IH]; simpl; [done|]. intros [= H]. by apply IH. Qed.

Lemma stamp_inj (url : string) (now1 now2 : Z) :
  url +:+ "?t=" +:+ pretty now1 = url +:+ "?t=" +:+ pretty now2 → now1 = now2.
Proof.
  intros H%append_inj_r%append_inj_r. by apply (inj pretty) in H.
Qed.

(** X4. A save does not look at the status of the answer.  Whatever the
    status, a decoded body without [pdf_url] changes nothing that shows (no
    preview, no message, no log), and a body with a non-empty [pdf_url] text
    sets the preview to it followed by [?t=] and the time stamp; two
    different time stamps give two different previews. *)
Theorem save_ignores_status (ots : list obj → loc → string)
    (net : json → fetchResult) (w : world) (t : json) (res : response) :
  truthy (parsedData w) = true →
  encode (S (length (heap w))) (heap w) (parsedData w) = Some t →
  net (JObj [("parsed", t)]) = FetchResolves res →
  (∀ data now,
     body res = JsonResolves data → lacksField "pdf_url" data = true →
     ∃ w', handleSave ots net now w = (Normal tt, w') ∧
           pdfUrl w' = pdfUrl w ∧ error w' = error w ∧ console w' = console w) ∧
  (∀ members url now,
     body res = JsonResolves (JObj members) →
     lastMember "pdf_url" members = Some (JStr url) → url ≠ "" →
     ∃ w', handleSave ots net now w = (Normal tt, w') ∧
           pdfUrl w' = VStr (url +:+ "?t=" +:+ pretty now) ∧
           error w' = error w ∧ console w' = console w) ∧
  (∀ (url : string) (now1 now2 : Z),
     now1 ≠ now2 → url +:+ "?t=" +:+ pretty now1 ≠ url +:+ "?t=" +:+ pretty now2).
Proof.
  intros Hpd Henc Hnet.
  pose proof (save_request_run w t Hpd Henc) as Hreq.
  set (w1 := World (heap w ++ [plainObject {[ "parsed" := parsedData w ]}]) (file w)
                   (parsedData w) (pdfUrl w) (loading w) (error w) (console w)) in *.
  split; [|split].
  - intros data now Hbody Hlack.
    pose proof (getProp_lacking "pdf_url" data w1 Hlack) as Hget.
    unfold handleSave. erewrite bind_run by reflexivity. rewrite Hpd. simpl.
    unfold try_catch.
    erewrite bind_run by reflexivity.
    erewrite bind_run by apply Hreq. rewrite Hnet.
    erewrite bind_run by reflexivity.
    unfold resJson. rewrite Hbody. unfold loadJson, mbind, M_bind.
    destruct (load data (heap w1)) as [d h1]. simpl in *.
    rewrite Hget. simpl. by eexists.
  - intros members url now Hbody Hlast Hurl.
    pose proof (getProp_loaded_primitive "pdf_url" members (JStr url) (VStr url) w1
                  Hlast eq_refl) as Hget.
    remember (JObj members) as data eqn:Hdata. clear Hdata.
    unfold handleSave. erewrite bind_run by reflexivity. rewrite Hpd. simpl.
    unfold try_catch.
    erewrite bind_run by reflexivity.
    erewrite bind_run by apply Hreq. rewrite Hnet.
    erewrite bind_run by reflexivity.
    unfold resJson. rewrite Hbody. unfold loadJson, mbind, M_bind.
    destruct (load data (heap w1)) as [d h1]. simpl in *.
    rewrite Hget. simpl.
    destruct (String.eqb_spec url "") as [|_]; [done|]. simpl. by eexists.
  - intros url now1 now2 Hne Heq. by apply Hne, (stamp_inj url).
Qed.

(** X5. Whatever the backend answers, a save completes normally and leaves
    the error message, the loading flag and the file as they were; it either
    writes nothing to the console, or writes the one entry "Update failed"
    and leaves the preview as it was.  Without a document it does nothing at
    all. *)
Theorem save_logs_or_updates (ots : list obj → loc → string)
    (net : json → fetchResult) (now : Z) (w : world) :
  ∃ w',
    handleSave ots net now w = (Normal tt, w') ∧
    error w' = error w ∧ loading w' = loading w ∧ file w' = file w ∧
    (console w' = console w ∨
     ∃ e, console w' = console w ++ [("Update failed", e)] ∧ pdfUrl w' = pdfUrl w) ∧
    (truthy (parsedData w) = false → w' = w).
Proof.
  unfold handleSave. erewrite bind_run by reflexivity.
  destruct (truthy (parsedData w)) eqn:Hpd; simpl.
  2:{ exists w. repeat split; by try left. }
  unfold try_catch. erewrite bind_run by reflexivity.
  unfold mbind, M_bind, stringify. cbn -[encode].
  destruct (encode _ _ _) as [request|]; simpl;
    [|eexists; (split; [reflexivity|]); simpl; repeat split; try done; right; by eauto].
  destruct (net request) as [e|res]; simpl;
    [eexists; (split; [reflexivity|]); simpl; repeat split; try done; right; by eauto|].
  unfold resJson. destruct (body res) as [e|data]; simpl;
    [eexists; (split; [reflexivity|]); simpl; repeat split; try done; right; by eauto|].
  unfold loadJson. simpl. destruct (load data _) as [d h1]. simpl.
  destruct d as [| | | | |l]; simpl;
    try (eexists; (split; [reflexivity|]); simpl; repeat split; try done;
         (by left) || (right; by eauto)).
  destruct (h1 !! l) as [o|]; simpl;
    [|eexists; (split; [reflexivity|]); simpl; repeat split; try done; by left].
  destruct (truthy (default VUndef (props o !! "pdf_url"))); simpl;
    eexists; (split; [reflexivity|]); simpl; repeat split; try done; by left.
Qed.

Lemma encode_mono (fuel : nat) (h : list obj) :
  ∀ v t, encode fuel h v = Some t → encode (S fuel) h v = Some t.
Proof.
  induction fuel as [|fuel IH]; intros v t Henc; [done|].
  destruct v as [| | | | |l]; try done.
  cbn [encode] in *.
  destruct (h !! l) as [[[xs|] m]|]; [| |done].
  - destruct (mapM (encode fuel h) xs) as [ts|] eqn:Hm; [|done].
    by erewrite mapM_agree; [|done|intros x y _; apply IH].
  - destruct (mapM _ _) as [ts|] eqn:Hm in Henc; [|done].
    erewrite mapM_agree; [done|done|].
    intros [key x] y _ Hxy. simpl in *.
    destruct (encode fuel h x) as [tx|] eqn:Hex; [|done].
    by rewrite (IH x tx Hex).
Qed.

Lemma encode_le (k k' : nat) (h : list obj) (v : val) (t : json) :
  (k ≤ k')%nat → encode k h v = Some t → encode k' h v = Some t.
Proof. induction 1; [done|]. intros Henc. by apply encode_mono, IHle. Qed.



















(** ** The further properties at concrete inputs *)

Lemma upload_installs_or_reports_witness :
  file fileChosen = Some "resume.pdf" ∧
  ∃ w',
    handleUpload (λ _, janeResponse) fileChosen = (Normal tt, w') ∧
    loading w' = false ∧ file w' = file fileChosen ∧ console w' = console fileChosen ∧
    heap fileChosen `prefix_of` heap w' ∧
    ((error w' = None ∧ truthy (parsedData w') = true ∧
      ∃ res data,
        janeResponse = FetchResolves res ∧ ok res = true ∧ body res = JsonResolves data ∧
        heap w' = (load data (heap fileChosen)).2 ∧
        getProp (load data (heap fileChosen)).1 "parsed" w' = (Normal (parsedData w'), w') ∧
        getProp (load data (heap fileChosen)).1 "pdf_url" w' = (Normal (pdfUrl w'), w'))
     ∨
     (parsedData w' = parsedData fileChosen ∧ pdfUrl w' = pdfUrl fileChosen ∧
      ∃ message, error w' = Some message)).
Proof.
  split; [reflexivity|].
  apply (upload_installs_or_reports (λ _, janeResponse) fileChosen "resume.pdf").
  reflexivity.
Defined.

Lemma upload_falsy_parsed_witness :
  ∃ w',
    handleUpload (λ _, falsyResponse) sample = (Normal tt, w') ∧
    parsedData w' = parsedData sample ∧
    pdfUrl w' = pdfUrl sample ∧
    heap sample `prefix_of` heap w' ∧
    error w' = Some msg_parsing_failed ∧
    loading w' = false.
Proof.
  eapply (upload_falsy_parsed (λ _, falsyResponse) sample "resume.pdf" _
            [("parsed", JNull); ("pdf_url", JStr "http://x/r1.pdf")] JNull VNull);
    reflexivity.
Defined.


Lemma save_ignores_status_witness :
  ∃ w',
    handleSave engineText (λ _, FetchResolves errorResponse) 1700000000000 sample
      = (Normal tt, w') ∧
    pdfUrl w' = VStr ("http://x/r2.pdf" +:+ "?t=" +:+ pretty 1700000000000) ∧
    error w' = error sample ∧ console w' = console sample.
Proof.
  destruct (save_ignores_status engineText (λ _, FetchResolves errorResponse) sample
              (sampleReading "BSc") errorResponse) as (_ & Hurl & _).
  - reflexivity.
  - by vm_compute.
  - reflexivity.
  - apply (Hurl [("pdf_url", JStr "http://x/r2.pdf")] "http://x/r2.pdf" 1700000000000);
      [reflexivity|reflexivity|discriminate].
Defined.

Lemma save_logs_or_updates_witness :
  ∃ w',
    handleSave engineText (λ _, FetchRejects NonError) 0 initial = (Normal tt, w') ∧
    error w' = error initial ∧ loading w' = loading initial ∧ file w' = file initial ∧
    (console w' = console initial ∨
     ∃ e, console w' = console initial ++ [("Update failed", e)] ∧
          pdfUrl w' = pdfUrl initial) ∧
    (truthy (parsedData initial) = false → w' = initial).
Proof. apply save_logs_or_updates. Defined.

Lemma field_edits_compose_witness :
  ∃ wfg wgf,
    (handleFieldChange "title" (VStr "Engineer");; handleFieldChange "email" (VStr "j@x.org"))
      sample = (Normal tt, wfg) ∧
    (handleFieldChange "email" (VStr "j@x.org");; handleFieldChange "title" (VStr "Engineer"))
      sample = (Normal tt, wgf) ∧
    fieldsOf wfg = <["email" := VStr "j@x.org"]> (<["title" := VStr "Engineer"]> (fieldsOf sample)) ∧
    ("title" ≠ "email" → fieldsOf wfg = fieldsOf wgf) ∧
    ("title" = "email" → fieldsOf wfg = <["email" := VStr "j@x.org"]> (fieldsOf sample)) ∧
    heap sample `prefix_of` heap wfg.
Proof. apply field_edits_compose. Defined.

Lemma entry_shows_what_was_typed_witness :
  ∃ w' entry,
    editEntryText education 0 "degree" "MSc" sample = (Normal tt, w') ∧
    boundList w' education [VRef 0%nat] ∧ [VRef 0%nat] !! 0%nat = Some entry ∧
    entryTextValue entry "degree" w' = (Normal (VStr "MSc"), w').
Proof.
  eapply (entry_shows_what_was_typed sample education 0 "degree" 3 1 0).
  - reflexivity.
  - reflexivity.
  - by vm_compute.
  - reflexivity.
  - reflexivity.
  - reflexivity.
  - lia.
Defined.

Lemma bullets_show_what_was_typed_witness :
  ∃ w' entry,
    editEntryLines experience 0 ("built it" +:+ String newline "ran it")
      sampleWithExperience = (Normal tt, w') ∧
    boundList w' experience [VRef 6%nat] ∧ [VRef 6%nat] !! 0%nat = Some entry ∧
    entryLinesValue engineText entry w'
      = (Normal ("built it" +:+ String newline "ran it"), w').
Proof.
  eapply (bullets_show_what_was_typed engineText sampleWithExperience experience 0 7 4 6).
  - reflexivity.
  - reflexivity.
  - by vm_compute.
  - reflexivity.
  - reflexivity.
  - reflexivity.
  - lia.
Defined.

Lemma bulk_shows_reformatted_witness :
  ∃ w' shown,
    editBulk technical_skills "Go,Rust" sample = (Normal tt, w') ∧
    displayBulk engineText technical_skills w' = (Normal shown, w') ∧
    shown = join ", " (split comma "Go,Rust") ∧
    String.length shown = (String.length "Go,Rust" + occurrences comma "Go,Rust")%nat ∧
    (shown = "Go,Rust" ↔ occurrences comma "Go,Rust" = 0%nat) ∧
    split comma "Go,Rust" ≠ [].
Proof. apply bulk_shows_reformatted. Defined.

Lemma list_edits_keep_other_fields_witness :
  (∃ w', addEntry experience sample = (Normal tt, w') ∧
         (∀ g, g ≠ fieldName experience → fieldsOf w' !! g = fieldsOf sample !! g) ∧
         heap sample `prefix_of` heap w') ∧
  (∀ i, ∃ w', removeEntry experience i sample = (Normal tt, w') ∧
              (∀ g, g ≠ fieldName experience → fieldsOf w' !! g = fieldsOf sample !! g) ∧
              heap sample `prefix_of` heap w').
Proof. apply (list_edits_keep_other_fields sample experience [] sample_experience). Defined.

Lemma add_then_remove_last_witness :
  ∃ w',
    (addEntry education;; removeEntry education (Z.of_nat (length [VRef 0%nat]))) sample
      = (Normal tt, w') ∧
    boundList w' education [VRef 0%nat] ∧
    (∀ g, g ≠ fieldName education → fieldsOf w' !! g = fieldsOf sample !! g) ∧
    heap sample `prefix_of` heap w'.
Proof.
  apply (add_then_remove_last sample education [VRef 0%nat] (or_introl sample_education)).
Defined.


Lemma editEntry_out_of_range_witness :
  (∀ text, ∃ w',
     editEntryText education 1 "degree" text sample
       = (Throw (JsError (msg_set_nullish "degree")), w') ∧
     parsedData w' = parsedData sample ∧ heap sample `prefix_of` heap w') ∧
  (∀ text, ∃ w',
     editEntryLines education 1 text sample
       = (Throw (JsError (msg_set_nullish "description")), w') ∧
     parsedData w' = parsedData sample ∧ heap sample `prefix_of` heap w').
Proof.
  apply (editEntry_out_of_range sample education 1 "degree" [VRef 0%nat] sample_education).
  simpl. lia.
Defined.
